(** * Face detection pipeline of [opencvproject/main.cpp]

    A shallow embedding of the [FaceDetector] class: the frame-skip counter,
    the saved-flag bookkeeping, the unique file names, the pinhole distance
    estimate and the text drawn on every processed frame.

    The vision library is a black box.  What it hands to the program on one
    call of [processFrame] (the captured picture, the rectangles found by the
    cascade, the readings of the wall clock) is collected in an [Env]; its
    calls that only consume data ([rectangle], [putText], [imwrite],
    [VideoWriter::write]) are recorded in the state and assumed to succeed.

    The calls into [std::filesystem] are modelled twice.  The definitions
    under the source's names describe a filesystem that answers every call
    ([create_directory] creates the directory or finds it, [exists] reads
    the status); the definitions of the module [Fs] take in addition the
    failures of these calls, which are the throwing overloads, and agree with
    the former as long as no call fails ([fs_processFrame_or_fails],
    [fs_run_or_fails], [fs_cooperative_run]). *)

From Stdlib Require Import ZArith Floats Lia.
From stdpp Require Import base list gmap strings pretty.

Open Scope Z_scope.
#[local] Set Warnings "-clear-no-such-hyp".

(** ** Machine integers *)

Module Int.

Definition INT_MAX : Z := 2147483647.
Definition INT_MIN : Z := -2147483648.

(** Two's complement wrap-around of a 32-bit [int]. *)
Definition wrap (z : Z) : Z := (z + 2147483648) mod 4294967296 - 2147483648.

Definition add (a b : Z) : Z := wrap (a + b).
Definition sub (a b : Z) : Z := wrap (a - b).

Definition in_range (z : Z) : Prop := INT_MIN <= z <= INT_MAX.

End Int.

(** ** Strings *)

(** [std::to_string] on an integer: its decimal digits, with a leading minus
    sign when negative. *)
Definition to_string (z : Z) : string := pretty z.

(** ** Geometry and pictures *)

Record Rect := mkRect { x : Z; y : Z; width : Z; height : Z }.

Definition Point : Type := Z * Z.

(** [Rect::tl]: the top-left corner. *)
Definition tl (r : Rect) : Point := (x r, y r).

Inductive drawing :=
| Rectangle (r : Rect)
| PutText (text : string) (org : Point).

(** A [cv::Mat]: either empty, or a captured picture (named by a number) and
    the drawings made on it so far, oldest first. *)
Inductive Mat :=
| EmptyMat
| Picture (id : nat) (overlay : list drawing).

Definition empty (m : Mat) : bool :=
  match m with EmptyMat => true | Picture _ _ => false end.

Definition draw (d : drawing) (m : Mat) : Mat :=
  match m with
  | EmptyMat => EmptyMat
  | Picture id ov => Picture id (ov ++ [d])
  end.

Definition overlay_of (m : Mat) : list drawing :=
  match m with EmptyMat => [] | Picture _ ov => ov end.

(** ** The object and the world around it *)

Record FaceDetector := mkFaceDetector {
  frame : Mat;
  faces : list Rect;
  facesSaved : list bool;
  focalLength : float;
  realFaceWidth : float;
  videoWriter : list Mat;      (* frames encoded into the video file so far *)
  frameSkipCount : Z;
  frameCounter : Z
}.

Definition set_frame (m : Mat) (d : FaceDetector) : FaceDetector :=
  mkFaceDetector m (faces d) (facesSaved d) (focalLength d) (realFaceWidth d)
                 (videoWriter d) (frameSkipCount d) (frameCounter d).
Definition set_faces (l : list Rect) (d : FaceDetector) : FaceDetector :=
  mkFaceDetector (frame d) l (facesSaved d) (focalLength d) (realFaceWidth d)
                 (videoWriter d) (frameSkipCount d) (frameCounter d).
Definition set_facesSaved (l : list bool) (d : FaceDetector) : FaceDetector :=
  mkFaceDetector (frame d) (faces d) l (focalLength d) (realFaceWidth d)
                 (videoWriter d) (frameSkipCount d) (frameCounter d).
Definition set_videoWriter (l : list Mat) (d : FaceDetector) : FaceDetector :=
  mkFaceDetector (frame d) (faces d) (facesSaved d) (focalLength d) (realFaceWidth d)
                 l (frameSkipCount d) (frameCounter d).
Definition set_frameCounter (c : Z) (d : FaceDetector) : FaceDetector :=
  mkFaceDetector (frame d) (faces d) (facesSaved d) (focalLength d) (realFaceWidth d)
                 (videoWriter d) (frameSkipCount d) c.

(** The state threaded through the member functions: the object, the paths
    that exist on disk, and the log of [imwrite] calls (file name and cropped
    region), oldest first. *)
Record World := mkWorld {
  self : FaceDetector;
  disk : gset string;
  imwrites : list (string * Rect)
}.

Definition on_self (f : FaceDetector -> FaceDetector) (w : World) : World :=
  mkWorld (f (self w)) (disk w) (imwrites w).

(** What the outside world supplies during one call of [processFrame]. *)
Record Env := mkEnv {
  captured : Mat;          (* the frame delivered by [video.read] *)
  detected : list Rect;    (* what [detectMultiScale] finds in that frame *)
  clock : nat -> Z         (* [system_clock::now] in seconds, while slot [i] is annotated *)
}.

(** ** A state and error monad *)

Inductive exn :=
| runtime_error (what : string)      (* thrown by the program itself *)
| filesystem_error (what : string).  (* thrown by a [std::filesystem] call *)

Definition CaptureFailed : exn :=
  runtime_error "Error: Could not read a frame from the camera.".

(** The ways a call can leave defined behaviour. *)
Inductive fault :=
| OutOfRange       (* [v[i]] outside the vector *)
| DivideByZero     (* [%] with a zero divisor *)
| EndlessLoop.     (* the file-name search finds no free name *)

Inductive outcome (A : Type) :=
| Done (a : A)
| Throw (e : exn)
| Undefined (f : fault).
Arguments Done {A} a.
Arguments Throw {A} e.
Arguments Undefined {A} f.

Definition M (A : Type) : Type := World -> outcome A * World.

Definition ret {A} (a : A) : M A := fun w => (Done a, w).

Definition bind {A B} (m : M A) (k : A -> M B) : M B :=
  fun w =>
    match m w with
    | (Done a, w') => k a w'
    | (Throw e, w') => (Throw e, w')
    | (Undefined f, w') => (Undefined f, w')
    end.

Definition throw {A} (e : exn) : M A := fun w => (Throw e, w).
Definition undefined {A} (f : fault) : M A := fun w => (Undefined f, w).
Definition get {A} (f : FaceDetector -> A) : M A := fun w => (Done (f (self w)), w).
Definition modify (f : FaceDetector -> FaceDetector) : M unit :=
  fun w => (Done tt, on_self f w).

Declare Scope cpp_scope.
Delimit Scope cpp_scope with cpp.
Notation "x <- c1 ;; c2" := (bind c1 (fun x => c2))
  (at level 100, c1 at next level, right associativity) : cpp_scope.
Notation "c1 ;; c2" := (bind c1 (fun _ => c2))
  (at level 100, right associativity) : cpp_scope.
Open Scope cpp_scope.

(** [v[i]] on a [std::vector]: undefined outside the vector. *)
Definition at_index {A} (v : list A) (i : nat) : M A :=
  match v !! i with
  | Some a => ret a
  | None => undefined OutOfRange
  end.

(** ** Distance estimate and its rendering *)

(** Conversion of an [int] to [double]; every 32-bit integer is exactly
    representable. *)
Definition double_of_int (z : Z) : float :=
  if z <? 0 then (- of_uint63 (Uint63.of_Z (- z)))%float
  else of_uint63 (Uint63.of_Z z).

(** Function to estimate distance to the camera:
    Distance = (Real Face Width * Focal Length) / Face Width in Pixels. *)
Definition estimateDistance (d : FaceDetector) (faceWidthInPixels : Z) : float :=
  ((realFaceWidth d * focalLength d) / double_of_int faceWidthInPixels)%float.

(** Nearest integer to [num / den] ([den > 0]), ties to the even one. *)
Definition round_half_even (num den : Z) : Z :=
  let q := num / den in
  match 2 * (num mod den) ?= den with
  | Lt => q
  | Gt => q + 1
  | Eq => if Z.even q then q else q + 1
  end.

Definition two_digits (n : Z) : string :=
  if n <? 10 then "0" +:+ to_string n else to_string n.

(** [ss << fixed << setprecision(2) << d]: the exact value of the double,
    rounded to two decimals. *)
Definition fixed2 (d : float) : string :=
  match Prim2SF d with
  | S754_nan => "nan"
  | S754_infinity s => if s then "-inf" else "inf"
  | S754_zero s => if s then "-0.00" else "0.00"
  | S754_finite s m e =>
      let n := if 0 <=? e then Z.pos m * 2 ^ e * 100
               else round_half_even (Z.pos m * 100) (2 ^ (- e)) in
      (if s then "-" else "") +:+ to_string (n / 100) +:+ "." +:+ two_digits (n mod 100)
  end.

(** ** Unique file names *)

Definition plain_name (now : Z) : string :=
  "faces/face_" +:+ to_string now +:+ ".jpg".

Definition numbered_name (now count : Z) : string :=
  "faces/face_" +:+ to_string now +:+ "_" +:+ to_string count +:+ ".jpg".

(** The [while (filesystem::exists(newFilename))] loop, run for at most
    [fuel] rounds; [count] is the value of the variable when the condition
    is tested. *)
Fixpoint unique_loop (fuel : nat) (files : gset string) (now count : Z)
         (newFilename : string) : option string :=
  if decide (newFilename ∈ files) then
    match fuel with
    | O => None
    | S fuel' =>
        unique_loop fuel' files now (Int.add count 1) (numbered_name now count)
    end
  else Some newFilename.

(** [filesystem::create_directory("faces")] on a filesystem that accepts
    it: afterwards the directory exists.  The call that can be refused is
    [Fs.create_directory] below. *)
Definition create_directory (dir : string) (files : gset string) : gset string :=
  {[ dir ]} ∪ files.

(** The search of [getUniqueFilename] over a given set of existing paths.
    One round more than there are paths is enough for the loop to leave,
    as long as [count] does not overflow (see [unique_name_first]). *)
Definition unique_name (files : gset string) (now : Z) : option string :=
  unique_loop (S (size files)) files now 1 (plain_name now).
Arguments unique_name : simpl never.
Arguments create_directory : simpl never.

(** [getUniqueFilename] when the calls into [std::filesystem] are answered;
    [Fs.getUniqueFilename] below also has their failures. *)
Definition getUniqueFilename (now : Z) : M string :=
  fun w =>
    let files := create_directory "faces" (disk w) in
    let w' := mkWorld (self w) files (imwrites w) in
    match unique_name files now with
    | Some newFilename => (Done newFilename, w')
    | None => (Undefined EndlessLoop, w')
    end.

(** [imwrite(filename, frame(r))]: the file exists afterwards. *)
Definition imwrite (filename : string) (r : Rect) : M unit :=
  fun w => (Done tt, mkWorld (self w) ({[ filename ]} ∪ disk w)
                             (imwrites w ++ [(filename, r)])).

(** ** Annotation *)

Definition faceMessage (n : nat) : string :=
  to_string (Z.of_nat n) +:+ " face" +:+ (if 1 <? Z.of_nat n then "s" else "") +:+ " found".

Definition labelText (d : FaceDetector) (i : nat) (r : Rect) : string :=
  ("Face " +:+ to_string (Z.of_nat i + 1))
    +:+ (" Dist: " +:+ fixed2 (estimateDistance d (width r)) +:+ " cm").

(** The body of the loop of [annotateFrame] for slot [i]. *)
Definition annotateFace (env : Env) (i : nat) : M unit :=
  fs <- get faces ;;
  r <- at_index fs i ;;
  modify (fun d => set_frame (draw (Rectangle r) (frame d)) d) ;;
  saved <- get facesSaved ;;
  is_saved <- at_index saved i ;;
  (if negb is_saved then
     filename <- getUniqueFilename (clock env i) ;;
     imwrite filename r ;;
     modify (fun d => set_facesSaved (<[i := true]> (facesSaved d)) d)
   else ret tt) ;;
  d <- get id ;;
  modify (fun d' => set_frame (draw (PutText (labelText d i r) (tl r)) (frame d')) d').

Fixpoint for_each (body : nat -> M unit) (indices : list nat) : M unit :=
  match indices with
  | [] => ret tt
  | i :: rest => body i ;; for_each body rest
  end.

Definition annotateFrame (env : Env) : M unit :=
  fs <- get faces ;;
  let message := faceMessage (length fs) in
  for_each (annotateFace env) (seq 0 (length fs)) ;;
  modify (fun d => set_frame (draw (PutText message (10, 40)) (frame d)) d).

(** ** One cycle *)

(** Lines 87-89: the saved flags follow the number of detections.
    [std::vector::resize(n, v)] is stdpp's [resize n v]: the first [n]
    elements are kept and missing ones are filled with [v]. *)
Definition syncSavedFlags (n : nat) (saved : list bool) : list bool :=
  if decide (length saved ≠ n) then resize n false saved else saved.

Definition processFrame (env : Env) : M unit :=
  modify (set_frame (captured env)) ;;
  fr <- get frame ;;
  if empty fr then throw CaptureFailed else
  modify (fun d => set_frameCounter (Int.add (frameCounter d) 1) d) ;;
  counter <- get frameCounter ;;
  skip <- get frameSkipCount ;;
  if decide (Int.add skip 1 = 0) then undefined DivideByZero else
  if decide (Z.rem counter (Int.add skip 1) ≠ 0) then ret tt else
  modify (set_frameCounter 0) ;;
  modify (set_faces (detected env)) ;;
  modify (fun d => set_facesSaved (syncSavedFlags (length (faces d)) (facesSaved d)) d) ;;
  annotateFrame env ;;
  modify (fun d => set_videoWriter (videoWriter d ++ [frame d]) d).

(** The object right after a successful construction. *)
Definition FaceDetector_new (focal real : float) (speedUpFactor : Z) : FaceDetector :=
  mkFaceDetector EmptyMat [] [] focal real [] (Int.sub speedUpFactor 1) 0.

(** A run of the entry loop over the successive environments; it ends with
    the first call that does not complete. *)
Fixpoint run (envs : list Env) : M unit :=
  match envs with
  | [] => ret tt
  | env :: rest => processFrame env ;; run rest
  end.

(** ** Construction, display and teardown *)

Definition SourceUnavailable : exn := runtime_error "Error: Could not open the camera.".
Definition ModelLoadFailed : exn := runtime_error "Error: Could not load face cascade.".
Definition SinkUnavailable : exn := runtime_error "Error: Could not open the video writer.".

(** [e.what()]. *)
Definition what (e : exn) : string :=
  match e with runtime_error message | filesystem_error message => message end.

(** What lies outside the object and the disk: the lines written to the
    error stream, the [imshow] calls (window name and frame shown), the
    windows that are open, and whether the capture device is held. *)
Record Desk := mkDesk {
  cerr : list string;
  shown : list (string * Mat);
  windows : gset string;
  camera_held : bool
}.

(** [cerr << message << endl]. *)
Definition log_error (message : string) (k : Desk) : Desk :=
  mkDesk (cerr k ++ [message]) (shown k) (windows k) (camera_held k).

(** Whether each resource opens when a constructor asks for it. *)
Record Startup := mkStartup {
  camera_opens : bool;
  cascade_loads : bool;
  writer_opens : bool
}.

(** [VideoProcessor(cameraIndex)]: opens the camera, or reports and throws. *)
Definition VideoProcessor_ctor (s : Startup) (k : Desk) : outcome unit * Desk :=
  let k1 := mkDesk (cerr k) (shown k) (windows k) (camera_opens s) in
  if negb (camera_opens s)
  then (Throw SourceUnavailable, log_error (what SourceUnavailable) k1)
  else (Done tt, k1).

(** [~VideoProcessor]: [video.release(); destroyAllWindows();]. *)
Definition VideoProcessor_dtor (k : Desk) : Desk :=
  mkDesk (cerr k) (shown k) ∅ false.

(** [FaceDetector(cascadePath, focalLength, realFaceWidth, videoPath,
    cameraIndex, speedUpFactor)]: the base constructor first, then the
    cascade, then the video writer.  A throw from the body of this
    constructor unwinds through the destructor of the base, which has been
    constructed by then. *)
Definition FaceDetector_ctor (s : Startup) (focal real : float) (speedUpFactor : Z)
    (k : Desk) : outcome FaceDetector * Desk :=
  match VideoProcessor_ctor s k with
  | (Done _, k1) =>
      if negb (cascade_loads s)
      then (Throw ModelLoadFailed,
            VideoProcessor_dtor (log_error (what ModelLoadFailed) k1))
      else if negb (writer_opens s)
      then (Throw SinkUnavailable,
            VideoProcessor_dtor (log_error (what SinkUnavailable) k1))
      else (Done (FaceDetector_new focal real speedUpFactor), k1)
  | (Throw e, k1) => (Throw e, k1)
  | (Undefined f, k1) => (Undefined f, k1)
  end.

(** [displayFrame(windowName)]: [imshow(windowName, frame)]. *)
Definition displayFrame (windowName : string) (d : FaceDetector) (k : Desk) : Desk :=
  mkDesk (cerr k) (shown k ++ [(windowName, frame d)])
         ({[ windowName ]} ∪ windows k) (camera_held k).

(** [processFrame] with the error stream in view: the one throw site of the
    function (lines 69-72) writes its message to [cerr] before throwing. *)
Definition processFrame_logged (env : Env) (w : World) (k : Desk)
    : outcome unit * World * Desk :=
  match processFrame env w with
  | (Throw e, w') => (Throw e, w', log_error (what e) k)
  | (o, w') => (o, w', k)
  end.

(** ** The entry point *)

(** The character ['q']. *)
Definition key_q : Z := 113.

(** What one turn of the entry loop meets: the environment of its
    [processFrame] call and the result of its [waitKey(20)]. *)
Record Tick := mkTick { tick_env : Env; tick_key : Z }.

(** The [while (true)] loop over the turns given.  [Done true]: left by
    [break]; [Done false]: the turns are used up with the loop still
    going. *)
Fixpoint entry_loop (ticks : list Tick) (w : World) (k : Desk)
    : outcome bool * World * Desk :=
  match ticks with
  | [] => (Done false, w, k)
  | t :: rest =>
      match processFrame_logged (tick_env t) w k with
      | (Done _, w1, k1) =>
          let k2 := displayFrame "Face Detection" (self w1) k1 in
          if decide (tick_key t = key_q) then (Done true, w1, k2)
          else entry_loop rest w1 k2
      | (Throw e, w1, k1) => (Throw e, w1, k1)
      | (Undefined f, w1, k1) => (Undefined f, w1, k1)
      end
  end.

(** How [main] stands after the turns given. *)
Inductive verdict :=
| Exited (code : Z)
| Running
| Broken (f : fault).

(** The desk when the program starts. *)
Definition desk0 : Desk := mkDesk [] [] ∅ false.

(** [main], started on a disk holding [files].  The world is [None] when no
    detector was constructed.  Leaving the [try] block, by [break] or by an
    exception, destroys the detector before the handler or the [return]
    runs. *)
Definition main (s : Startup) (ticks : list Tick) (files : gset string)
    : verdict * option World * Desk :=
  match FaceDetector_ctor s 800 14 2 desk0 with
  | (Done d, k1) =>
      match entry_loop ticks (mkWorld d files []) k1 with
      | (Done true, w, k2) => (Exited 0, Some w, VideoProcessor_dtor k2)
      | (Done false, w, k2) => (Running, Some w, k2)
      | (Throw e, w, k2) =>
          (Exited (-1), Some w, log_error (what e) (VideoProcessor_dtor k2))
      | (Undefined f, w, k2) => (Broken f, Some w, k2)
      end
  | (Throw e, k1) => (Exited (-1), None, log_error (what e) k1)
  | (Undefined f, k1) => (Broken f, None, k1)
  end.

(** ** The filesystem calls when they can fail *)

(** What the filesystem answers beyond the set of paths that exist.  The
    calls of [getUniqueFilename] are the throwing overloads of
    [std::filesystem]: [create_directory(p)] raises a [filesystem_error] when
    [p] exists and is not a directory, or when the directory cannot be
    created; [exists(p)] raises one when the status of [p] cannot be read.
    [refused p] and [unreadable p] hold the [what()] of that error, which is
    the library's own text.  The answers are fixed over a run: nothing but
    the program changes the filesystem. *)
Record Filesystem := mkFilesystem {
  refused : string -> option string;
  unreadable : string -> option string
}.

(** A filesystem on which no call fails. *)
Definition cooperative : Filesystem :=
  mkFilesystem (fun _ => None) (fun _ => None).

Module Fs.

(** [filesystem::create_directory(dir)] (line 98). *)
Definition create_directory (fs : Filesystem) (dir : string) : M unit :=
  fun w =>
    match refused fs dir with
    | Some message => (Throw (filesystem_error message), w)
    | None => (Done tt, mkWorld (self w) ({[ dir ]} ∪ disk w) (imwrites w))
    end.

(** [filesystem::exists(p)] (line 103). *)
Definition path_exists (fs : Filesystem) (p : string) : M bool :=
  fun w =>
    match unreadable fs p with
    | Some message => (Throw (filesystem_error message), w)
    | None => (Done (bool_decide (p ∈ disk w)), w)
    end.

(** The [while (filesystem::exists(newFilename))] loop, run for at most
    [fuel] rounds. *)
Fixpoint unique_loop (fs : Filesystem) (fuel : nat) (now count : Z)
         (newFilename : string) : M string :=
  present <- path_exists fs newFilename ;;
  if present : bool then
    match fuel with
    | O => undefined EndlessLoop
    | S fuel' =>
        unique_loop fs fuel' now (Int.add count 1) (numbered_name now count)
    end
  else ret newFilename.

Definition getUniqueFilename (fs : Filesystem) (now : Z) : M string :=
  create_directory fs "faces" ;;
  files <- (fun w => (Done (disk w), w)) ;;
  unique_loop fs (S (size files)) now 1 (plain_name now).

(** The body of the loop of [annotateFrame] for slot [i]. *)
Definition annotateFace (fs : Filesystem) (env : Env) (i : nat) : M unit :=
  faces_ <- get faces ;;
  r <- at_index faces_ i ;;
  modify (fun d => set_frame (draw (Rectangle r) (frame d)) d) ;;
  saved <- get facesSaved ;;
  is_saved <- at_index saved i ;;
  (if negb is_saved then
     filename <- getUniqueFilename fs (clock env i) ;;
     imwrite filename r ;;
     modify (fun d => set_facesSaved (<[i := true]> (facesSaved d)) d)
   else ret tt) ;;
  d <- get id ;;
  modify (fun d' => set_frame (draw (PutText (labelText d i r) (tl r)) (frame d')) d').

Definition annotateFrame (fs : Filesystem) (env : Env) : M unit :=
  faces_ <- get faces ;;
  let message := faceMessage (length faces_) in
  for_each (annotateFace fs env) (seq 0 (length faces_)) ;;
  modify (fun d => set_frame (draw (PutText message (10, 40)) (frame d)) d).

Definition processFrame (fs : Filesystem) (env : Env) : M unit :=
  modify (set_frame (captured env)) ;;
  fr <- get frame ;;
  if empty fr then throw CaptureFailed else
  modify (fun d => set_frameCounter (Int.add (frameCounter d) 1) d) ;;
  counter <- get frameCounter ;;
  skip <- get frameSkipCount ;;
  if decide (Int.add skip 1 = 0) then undefined DivideByZero else
  if decide (Z.rem counter (Int.add skip 1) ≠ 0) then ret tt else
  modify (set_frameCounter 0) ;;
  modify (set_faces (detected env)) ;;
  modify (fun d => set_facesSaved (syncSavedFlags (length (faces d)) (facesSaved d)) d) ;;
  annotateFrame fs env ;;
  modify (fun d => set_videoWriter (videoWriter d ++ [frame d]) d).

Fixpoint run (fs : Filesystem) (envs : list Env) : M unit :=
  match envs with
  | [] => ret tt
  | env :: rest => processFrame fs env ;; run fs rest
  end.

(** [processFrame] with the error stream in view.  The write to [cerr]
    (line 70) is in the branch taken when the frame read is empty; an
    exception that comes out of a library call is not announced there. *)
Definition processFrame_logged (fs : Filesystem) (env : Env) (w : World) (k : Desk)
    : outcome unit * World * Desk :=
  (processFrame fs env w,
   if empty (captured env) then log_error (what CaptureFailed) k else k).

Fixpoint entry_loop (fs : Filesystem) (ticks : list Tick) (w : World) (k : Desk)
    : outcome bool * World * Desk :=
  match ticks with
  | [] => (Done false, w, k)
  | t :: rest =>
      match processFrame_logged fs (tick_env t) w k with
      | (Done _, w1, k1) =>
          let k2 := displayFrame "Face Detection" (self w1) k1 in
          if decide (tick_key t = key_q) then (Done true, w1, k2)
          else entry_loop fs rest w1 k2
      | (Throw e, w1, k1) => (Throw e, w1, k1)
      | (Undefined f, w1, k1) => (Undefined f, w1, k1)
      end
  end.

(** [main]: the handler catches every [std::exception], a
    [filesystem_error] among them, and writes its [what()]. *)
Definition main (fs : Filesystem) (s : Startup) (ticks : list Tick) (files : gset string)
    : verdict * option World * Desk :=
  match FaceDetector_ctor s 800 14 2 desk0 with
  | (Done d, k1) =>
      match entry_loop fs ticks (mkWorld d files []) k1 with
      | (Done true, w, k2) => (Exited 0, Some w, VideoProcessor_dtor k2)
      | (Done false, w, k2) => (Running, Some w, k2)
      | (Throw e, w, k2) =>
          (Exited (-1), Some w, log_error (what e) (VideoProcessor_dtor k2))
      | (Undefined f, w, k2) => (Broken f, Some w, k2)
      end
  | (Throw e, k1) => (Exited (-1), None, log_error (what e) k1)
  | (Undefined f, k1) => (Broken f, None, k1)
  end.

End Fs.

(** [message] is the error of a call that [fs] fails. *)
Definition failure_of (fs : Filesystem) (message : string) : Prop :=
  exists p, refused fs p = Some message \/ unreadable fs p = Some message.

(** [m'] goes as [m] does, unless a filesystem call fails in it; it then
    ends with the error of that call. *)
Definition or_fails {A} (fs : Filesystem) (m' m : M A) : Prop :=
  forall w, m' w = m w \/
            exists message w', m' w = (Throw (filesystem_error message), w') /\
                               failure_of fs message.

(** * Vocabulary of the properties *)

(** The name tested in round [k] of the loop. *)
Definition candidate (now : Z) (k : nat) : string :=
  match k with
  | O => plain_name now
  | S _ => numbered_name now (Z.of_nat k)
  end.


(** What is drawn for slot [i]: the box, then the label. *)
Definition slot_drawings (d : FaceDetector) (i : nat) (r : Rect) : list drawing :=
  [Rectangle r; PutText (labelText d i r) (tl r)].

Definition draws (ds : list drawing) (m : Mat) : Mat :=
  foldl (fun m' d => draw d m') m ds.

(** The drawings for slots [s .. s+n-1], in order. *)
Definition drawings_range (d : FaceDetector) (s n : nat) : list drawing :=
  concat ((fun i => match faces d !! i with
                    | Some r => slot_drawings d i r
                    | None => []
                    end) <$> seq s n).

(** The rectangles of the slots among [s .. s+n-1] whose flag is false. *)
Definition unsaved_range (fs : list Rect) (sv : list bool) (s n : nat) : list Rect :=
  concat ((fun i => match fs !! i, sv !! i with
                    | Some r, Some false => [r]
                    | _, _ => []
                    end) <$> seq s n).

Definition unsaved_rects (fs : list Rect) (sv : list bool) : list Rect :=
  unsaved_range fs sv 0 (length fs).

(** The crops a cycle owes, slot by slot: none for a slot whose flag is set,
    the slot's rectangle for one whose flag is not. *)
Fixpoint crops_due (fs : list Rect) (sv : list bool) : list Rect :=
  match fs, sv with
  | r :: fs', saved :: sv' => (if saved then [] else [r]) ++ crops_due fs' sv'
  | _, _ => []
  end.

(** What no round of the loop touches, however it ends. *)
Definition stable (d d' : FaceDetector) : Prop :=
  faces d' = faces d /\
  length (facesSaved d') = length (facesSaved d) /\
  focalLength d' = focalLength d /\
  realFaceWidth d' = realFaceWidth d /\
  videoWriter d' = videoWriter d /\
  frameSkipCount d' = frameSkipCount d /\
  frameCounter d' = frameCounter d.

Definition summary (n : nat) : drawing := PutText (faceMessage n) (10, 40).

Definition flags_match (d : FaceDetector) : Prop :=
  length (facesSaved d) = length (faces d).

(** The captured frame is due for full processing. *)
Definition due (d : FaceDetector) : Prop :=
  Z.rem (Int.add (frameCounter d) 1) (Int.add (frameSkipCount d) 1) = 0.

(** The object of a skipped frame: the new frame is held, the counter has
    advanced, nothing else has moved. *)
Definition skipped (env : Env) (d : FaceDetector) : FaceDetector :=
  set_frameCounter (Int.add (frameCounter d) 1) (set_frame (captured env) d).

(** The object as [annotateFrame] finds it in a full cycle. *)
Definition prepared (env : Env) (d : FaceDetector) : FaceDetector :=
  set_facesSaved (syncSavedFlags (length (detected env)) (facesSaved d))
    (set_faces (detected env) (set_frameCounter 0 (set_frame (captured env) d))).

(** The number of faces found over a run. *)
Definition total_detected (envs : list Env) : nat :=
  length (concat (detected <$> envs)).

(** The number of frames encoded into the video so far. *)
Definition written (w : World) : nat := length (videoWriter (self w)).

(** The location [l] records how the remainder [r] of a division by [den]
    compares with one half. *)
Definition loc_matches (l : location) (r den : Z) : Prop :=
  match l with
  | loc_Exact => r = 0
  | loc_Inexact c => r ≠ 0 /\ (2 * r ?= den) = c
  end.

(** The last two steps of [binary_round_aux] on a rounded mantissa of 53
    bits, or on [2 ^ 53] when rounding carried. *)
Definition finish (M1 e1 : Z) : spec_float :=
  let '(mrs, e2) := shr_fexp prec emax M1 e1 loc_Exact in
  match shr_m mrs with
  | 0 => S754_zero false
  | Zpos m => if e2 <=? emax - prec then S754_finite false m e2 else S754_infinity false
  | _ => S754_nan
  end.

(** ** Scenes for concrete runs *)

Definition face_a : Rect := mkRect 10 20 100 100.

Definition face_b : Rect := mkRect 200 20 200 200.

Definition face_c : Rect := mkRect 400 60 50 50.

Definition at_noon : nat -> Z := fun _ => 1730000000.

Definition env_none : Env := mkEnv (Picture 0 []) [] at_noon.

Definition env_two : Env := mkEnv (Picture 1 []) [face_a; face_b] at_noon.

Definition env_three : Env := mkEnv (Picture 2 []) [face_a; face_b; face_c] at_noon.

Definition env_dark : Env := mkEnv EmptyMat [face_a] at_noon.

(** The program's own calibration, with every frame processed. *)
Definition fresh_world : World := mkWorld (FaceDetector_new 800 14 1) ∅ [].

(** The world after one cycle that found two faces. *)
Definition world_two : World := (processFrame env_two fresh_world).2.

(** ** Vocabulary of the further properties *)

(** Every image written so far went to a name of its own, which is on disk
    and was not on the disk [before]. *)
Definition tidy (before : gset string) (w : World) : Prop :=
  NoDup (imwrites w).*1 /\
  (forall f, f ∈ (imwrites w).*1 -> f ∈ disk w /\ (f ∉ before)) /\
  before ⊆ disk w.

(** Nothing that was there is gone: the paths on disk, the images written
    and the frames encoded have only been added to. *)
Definition grown (w w' : World) : Prop :=
  disk w ⊆ disk w' /\
  imwrites w `prefix_of` imwrites w' /\
  videoWriter (self w) `prefix_of` videoWriter (self w').

(** A frame as the video holds it: a picture, with the summary line as its
    last drawing. *)
Definition annotated (m : Mat) : Prop :=
  empty m = false /\ exists n, last (overlay_of m) = Some (summary n).

(** All flags are set and there is one for each detection. *)
Definition all_saved (d : FaceDetector) : Prop :=
  facesSaved d = replicate (length (faces d)) true.

(** The frames held after each call of a run, as long as the calls
    return. *)
Fixpoint held_frames (envs : list Env) (w : World) : list Mat :=
  match envs with
  | [] => []
  | env :: rest =>
      match processFrame env w with
      | (Done _, w1) => frame (self w1) :: held_frames rest w1
      | _ => []
      end
  end.

(** The desk after the frames [ms] have been shown, one after the other, in
    the window of the entry loop. *)
Definition display_all (ms : list Mat) (k : Desk) : Desk :=
  foldl (fun k' m => mkDesk (cerr k') (shown k' ++ [("Face Detection", m)])
                            ({[ "Face Detection" ]} ∪ windows k') (camera_held k'))
        k ms.

(** All three resources open. *)
Definition all_open : Startup := mkStartup true true true.

(** The error of a startup in which some resource does not open: the
    camera is asked first, then the cascade, then the video writer. *)
Definition startup_error (s : Startup) : exn :=
  if negb (camera_opens s) then SourceUnavailable
  else if negb (cascade_loads s) then ModelLoadFailed
  else SinkUnavailable.

(** The world in which [main] enters its loop. *)
Definition main_world (files : gset string) : World :=
  mkWorld (FaceDetector_new 800 14 2) files [].

(** * Properties *)

(** ** Machine integers *)

Lemma wrap_id z : Int.in_range z -> Int.wrap z = z.
Proof.
  unfold Int.in_range, Int.INT_MIN, Int.INT_MAX, Int.wrap. intros H.
  rewrite Z.mod_small; lia.
Qed.

Lemma add_no_overflow a b :
  Int.INT_MIN <= a + b <= Int.INT_MAX -> Int.add a b = a + b.
Proof. intros H. apply wrap_id, H. Qed.

(** ** Strings *)

Lemma length_append (s t : string) :
  String.length (s +:+ t) = (String.length s + String.length t)%nat.
Proof. induction s as [|c s IH]; simpl; [done | by rewrite IH]. Qed.

Lemma append_inj_r (t s1 s2 : string) : s1 +:+ t = s2 +:+ t -> s1 = s2.
Proof.
  revert s2. induction s1 as [|c s1 IH]; intros [|c2 s2] H.
  - done.
  - apply (f_equal String.length) in H.
    rewrite !length_append in H. simpl in H. lia.
  - apply (f_equal String.length) in H.
    rewrite !length_append in H. simpl in H. lia.
  - cbn in H. injection H as -> H. f_equal. by apply IH.
Qed.

Lemma to_string_inj a b : to_string a = to_string b -> a = b.
Proof. unfold to_string. apply pretty_Z_inj. Qed.

Lemma numbered_name_inj now a b : numbered_name now a = numbered_name now b -> a = b.
Proof.
  unfold numbered_name. intros H.
  do 3 apply String.app_inj in H.
  by apply append_inj_r, to_string_inj in H.
Qed.

Lemma plain_not_numbered now c : plain_name now ≠ numbered_name now c.
Proof.
  unfold plain_name, numbered_name. intros H.
  do 2 apply String.app_inj in H. discriminate H.
Qed.

(** ** The file-name search *)

Lemma candidate_inj now j k : candidate now j = candidate now k -> j = k.
Proof.
  destruct j, k; simpl; intros H; try done.
  - by apply plain_not_numbered in H.
  - symmetry in H. by apply plain_not_numbered in H.
  - apply numbered_name_inj in H. lia.
Qed.

Lemma unique_loop_fresh fuel files now count name f :
  unique_loop fuel files now count name = Some f -> f ∉ files.
Proof.
  revert count name. induction fuel as [|fuel IH]; intros count name; simpl.
  - case_decide; [done | by intros [= <-]].
  - case_decide; [apply IH | by intros [= <-]].
Qed.

(** Started in round [k], the loop stops in the first round [j >= k] whose
    candidate is free, provided the fuel reaches that far and [count] stays
    below [INT_MAX]. *)
Lemma unique_loop_first fuel files now k j :
  (k <= j <= k + fuel)%nat ->
  Z.of_nat j < Int.INT_MAX ->
  candidate now j ∉ files ->
  (forall i, (k <= i < j)%nat -> candidate now i ∈ files) ->
  unique_loop fuel files now (Z.of_nat k + 1) (candidate now k) = Some (candidate now j).
Proof.
  revert k. induction fuel as [|fuel IH]; intros k Hk Hj Hfree Hbusy.
  - assert (j = k) as -> by lia. simpl. by rewrite decide_False.
  - simpl. destruct (decide (j = k)) as [->|Hne].
    + by rewrite decide_False.
    + rewrite decide_True by (apply Hbusy; lia).
      rewrite add_no_overflow by (unfold Int.INT_MIN, Int.INT_MAX in *; lia).
      replace (Z.of_nat k + 1 + 1) with (Z.of_nat (S k) + 1) by lia.
      replace (numbered_name now (Z.of_nat k + 1)) with (candidate now (S k))
        by (simpl; f_equal; lia).
      apply IH; [lia | done | done | intros i Hi; apply Hbusy; lia].
Qed.

(** Among the first [size files + 1] candidates one is free. *)
Lemma candidate_free_exists (files : gset string) now :
  exists j, (j <= size files)%nat /\ (candidate now j ∉ files) /\
            (forall i, (i < j)%nat -> candidate now i ∈ files).
Proof.
  assert (exists j, (j <= size files)%nat /\ candidate now j ∉ files) as Hex.
  { destruct (decide (Forall (fun j => candidate now j ∈ files) (seq 0 (S (size files)))))
      as [Hall|Hnot].
    - exfalso.
      assert (list_to_set (candidate now <$> seq 0 (S (size files))) ⊆ files) as Hsub.
      { intros f Hf. apply elem_of_list_to_set, list_elem_of_fmap in Hf.
        destruct Hf as (j & -> & Hj). rewrite Forall_forall in Hall. by apply Hall. }
      apply subseteq_size in Hsub.
      rewrite size_list_to_set, length_fmap, length_seq in Hsub; [lia|].
      apply NoDup_fmap_2; [intros a b; apply candidate_inj | apply NoDup_seq].
    - apply not_Forall_Exists in Hnot; [|intros j; apply _].
      apply Exists_exists in Hnot. destruct Hnot as (j & Hj & Hfree).
      apply elem_of_seq in Hj. exists j. split; [lia | done]. }
  destruct Hex as (j0 & Hle & Hfree0).
  revert Hle Hfree0. induction (lt_wf j0) as [j0 _ IH]. intros Hle Hfree0.
  destruct (decide (Forall (fun i => candidate now i ∈ files) (seq 0 j0))) as [Hall|Hnot].
  - exists j0. split_and!; [done | done |].
    intros i Hi. rewrite Forall_forall in Hall. apply Hall, elem_of_seq. lia.
  - apply not_Forall_Exists in Hnot; [|intros j; apply _].
    apply Exists_exists in Hnot. destruct Hnot as (j & Hj & Hfree).
    apply elem_of_seq in Hj. apply (IH j); [lia | lia | done].
Qed.

Lemma unique_name_first files now :
  Z.of_nat (size files) < Int.INT_MAX ->
  exists j, (j <= size files)%nat /\
            unique_name files now = Some (candidate now j) /\
            (candidate now j ∉ files) /\
            (forall i, (i < j)%nat -> candidate now i ∈ files).
Proof.
  intros Hsmall. destruct (candidate_free_exists files now) as (j & Hj & Hfree & Hbusy).
  exists j. split_and!; [done | | done | done].
  unfold unique_name. apply (unique_loop_first _ _ _ 0%nat j); [lia | lia | done |].
  intros i Hi. apply Hbusy. lia.
Qed.

Lemma unique_name_fresh files now f : unique_name files now = Some f -> f ∉ files.
Proof. apply unique_loop_fresh. Qed.

Lemma size_add_path (f : string) (files : gset string) :
  (size ({[ f ]} ∪ files) <= S (size files))%nat.
Proof.
  destruct (decide (f ∈ files)) as [Hin|Hout].
  - rewrite (subseteq_union_1_L {[ f ]} files); [lia|].
    by apply singleton_subseteq_l.
  - rewrite size_union by set_solver. rewrite size_singleton. lia.
Qed.

(** ** The loop body of [annotateFrame] *)

(** The exact effect of one round of the loop, case by case. *)
Lemma annotateFace_cases env i w :
  match faces (self w) !! i, facesSaved (self w) !! i with
  | Some r, Some true =>
      annotateFace env i w =
      (Done tt, on_self (fun d => set_frame (draws (slot_drawings d i r) (frame d)) d) w)
  | Some r, Some false =>
      let files := create_directory "faces" (disk w) in
      match unique_name files (clock env i) with
      | Some f =>
          annotateFace env i w =
          (Done tt,
           mkWorld (set_frame (draws (slot_drawings (self w) i r) (frame (self w)))
                      (set_facesSaved (<[i := true]> (facesSaved (self w))) (self w)))
                   ({[ f ]} ∪ files) (imwrites w ++ [(f, r)]))
      | None =>
          annotateFace env i w =
          (Undefined EndlessLoop,
           mkWorld (set_frame (draw (Rectangle r) (frame (self w))) (self w))
                   files (imwrites w))
      end
  | Some r, None =>
      annotateFace env i w =
      (Undefined OutOfRange,
       on_self (fun d => set_frame (draw (Rectangle r) (frame d)) d) w)
  | None, _ => annotateFace env i w = (Undefined OutOfRange, w)
  end.
Proof.
  unfold annotateFace, bind, get, at_index, modify, ret, undefined, getUniqueFilename,
    imwrite, on_self. cbn.
  destruct (faces (self w) !! i) as [r|] eqn:Hr; cbn; [|done].
  destruct (facesSaved (self w) !! i) as [[|]|] eqn:Hb; cbn; [done | | done].
  destruct (unique_name _ _) as [f|]; cbn; done.
Qed.

Lemma draws_app ds1 ds2 m : draws (ds1 ++ ds2) m = draws ds2 (draws ds1 m).
Proof. apply foldl_app. Qed.

Lemma draws_picture ds id ov : draws ds (Picture id ov) = Picture id (ov ++ ds).
Proof.
  revert ov. induction ds as [|d ds IH]; intros ov.
  - by rewrite app_nil_r.
  - change (draws (d :: ds) (Picture id ov)) with (draws ds (Picture id (ov ++ [d]))).
    rewrite IH. by rewrite <- app_assoc.
Qed.

Lemma empty_draws ds m : empty (draws ds m) = empty m.
Proof. destruct m; [by induction ds | by rewrite draws_picture]. Qed.

Lemma unsaved_range_insert fs sv s b s' n :
  (s < s')%nat ->
  unsaved_range fs (<[s := b]> sv) s' n = unsaved_range fs sv s' n.
Proof.
  intros Hlt. unfold unsaved_range. f_equal. apply list_fmap_ext.
  intros k i Hi. apply lookup_seq in Hi as [-> _].
  rewrite list_lookup_insert_ne by lia. done.
Qed.

Lemma labelText_ext d d' i r :
  focalLength d' = focalLength d -> realFaceWidth d' = realFaceWidth d ->
  labelText d' i r = labelText d i r.
Proof. unfold labelText, estimateDistance. by intros -> ->. Qed.

Lemma drawings_range_ext d d' s n :
  faces d' = faces d ->
  focalLength d' = focalLength d -> realFaceWidth d' = realFaceWidth d ->
  drawings_range d' s n = drawings_range d s n.
Proof.
  intros Hf Hfl Hrw. unfold drawings_range. rewrite Hf. f_equal.
  apply list_fmap_ext. intros k i _. destruct (faces d !! i); [|done].
  unfold slot_drawings. by rewrite (labelText_ext d d').
Qed.

Lemma drawings_range_succ d s n r :
  faces d !! s = Some r ->
  drawings_range d s (S n) = slot_drawings d s r ++ drawings_range d (S s) n.
Proof. intros Hr. unfold drawings_range. cbn. by rewrite Hr. Qed.

Lemma unsaved_range_succ (fs : list Rect) (sv : list bool) s n (r : Rect) (b : bool) :
  fs !! s = Some r -> sv !! s = Some b ->
  unsaved_range fs sv s (S n) =
  (if b then @nil Rect else [r]) ++ unsaved_range fs sv (S s) n.
Proof. intros Hr Hb. unfold unsaved_range. cbn. rewrite Hr, Hb. by destruct b. Qed.

Arguments drawings_range : simpl never.
Arguments unsaved_range : simpl never.
Arguments draws : simpl never.
Arguments labelText : simpl never.

(** The loop over slots [s .. s+n-1], when it runs to its end. *)
Lemma annotate_loop_done env n : forall s w w',
  for_each (annotateFace env) (seq s n) w = (Done tt, w') ->
  (forall j, facesSaved (self w') !! j =
             if decide (s <= j < s + n)%nat then Some true
             else facesSaved (self w) !! j) /\
  self w' = set_frame (draws (drawings_range (self w) s n) (frame (self w)))
              (set_facesSaved (facesSaved (self w')) (self w)) /\
  exists new,
    imwrites w' = imwrites w ++ new /\
    new.*2 = unsaved_range (faces (self w)) (facesSaved (self w)) s n /\
    NoDup new.*1 /\
    (forall f, f ∈ new.*1 -> (f ∉ disk w) /\ f ∈ disk w') /\
    disk w ⊆ disk w' /\
    (new = [] -> disk w' = disk w) /\
    (size (disk w') <= size (disk w) + 2 * length new)%nat.
Proof.
  induction n as [|n IH]; intros s w w' Hrun.
  - injection Hrun as <-. split_and!.
    + intros j. rewrite decide_False by lia. done.
    + by destruct w as [[] ? ?].
    + exists []. rewrite app_nil_r. split_and!; try done; [constructor| |cbn; lia].
      intros f Hf. by apply elem_of_nil in Hf.
  - cbn [seq for_each] in Hrun. unfold bind at 1 in Hrun.
    pose proof (annotateFace_cases env s w) as Hcase.
    destruct (faces (self w) !! s) as [r|] eqn:Hr;
      [|rewrite Hcase in Hrun; discriminate Hrun].
    destruct (facesSaved (self w) !! s) as [[|]|] eqn:Hb;
      [| |rewrite Hcase in Hrun; discriminate Hrun].
    + (* already saved *)
      rewrite Hcase in Hrun. apply IH in Hrun.
      destruct Hrun
        as (Hflags & Hself & new & Hlog & Hrects & Hdup & Hfresh & Hsub & Hnil & Hsize).
      cbn [self disk imwrites on_self facesSaved faces set_frame] in *.
      split_and!.
      * intros j. rewrite Hflags. repeat case_decide; try done; try lia.
        assert (j = s) as -> by lia. done.
      * etrans; [exact Hself|].
        rewrite (drawings_range_succ _ _ _ _ Hr), draws_app.
        rewrite (drawings_range_ext (self w)) by done. done.
      * exists new. rewrite (unsaved_range_succ _ _ _ _ _ _ Hr Hb). done.
    + (* not saved yet *)
      cbn zeta in Hcase.
      destruct (unique_name (create_directory "faces" (disk w)) (clock env s))
        as [f|] eqn:Hname; [|rewrite Hcase in Hrun; discriminate Hrun].
      rewrite Hcase in Hrun. apply IH in Hrun.
      destruct Hrun
        as (Hflags & Hself & new & Hlog & Hrects & Hdup & Hfresh & Hsub & Hnil & Hsize).
      apply unique_name_fresh in Hname.
      cbn [self disk imwrites on_self facesSaved faces set_frame set_facesSaved] in *.
      split_and!.
      * intros j. rewrite Hflags. destruct (decide (j = s)) as [->|Hne].
        -- rewrite decide_False, decide_True by lia.
           rewrite list_lookup_insert_eq; [done|]. by eapply lookup_lt_Some.
        -- rewrite list_lookup_insert_ne by done.
           repeat case_decide; try done; lia.
      * etrans; [exact Hself|].
        rewrite (drawings_range_succ _ _ _ _ Hr), draws_app.
        rewrite (drawings_range_ext (self w)) by done. done.
      * exists ((f, r) :: new). split_and!.
        -- rewrite Hlog, <- app_assoc. done.
        -- rewrite (unsaved_range_succ _ _ _ _ _ _ Hr Hb). cbn.
           f_equal. rewrite Hrects. apply unsaved_range_insert. lia.
        -- cbn. constructor; [|done]. intros Hin. apply Hfresh in Hin as [Hin _].
           apply Hin. set_solver.
        -- intros f' Hf'. cbn in Hf'. apply elem_of_cons in Hf' as [->|Hf'].
           ++ split; [|set_solver]. intros Hin. apply Hname.
              unfold create_directory. set_solver.
           ++ apply Hfresh in Hf' as [Hout Hin]. split; [|done].
              intros Hdk. apply Hout. unfold create_directory. set_solver.
        -- unfold create_directory in Hsub. set_solver.
        -- done.
        -- pose proof (size_add_path "faces" (disk w)).
           pose proof (size_add_path f (create_directory "faces" (disk w))).
           unfold create_directory in *. cbn [length]. lia.
Qed.

Lemma stable_refl d : stable d d.
Proof. by repeat split. Qed.

Lemma stable_trans d1 d2 d3 : stable d1 d2 -> stable d2 d3 -> stable d1 d3.
Proof.
  unfold stable. intros (?&?&?&?&?&?&?) (?&?&?&?&?&?&?).
  split_and!; congruence.
Qed.

Lemma annotateFace_stable env i w :
  stable (self w) (self (annotateFace env i w).2) /\
  (forall e, (annotateFace env i w).1 ≠ Throw e).
Proof.
  pose proof (annotateFace_cases env i w) as Hcase.
  destruct (faces (self w) !! i) as [r|]; [|rewrite Hcase; split; [apply stable_refl|done]].
  destruct (facesSaved (self w) !! i) as [[|]|];
    [| |rewrite Hcase; split; [by repeat split|done]].
  - rewrite Hcase. split; [by repeat split|done].
  - cbn zeta in Hcase. destruct (unique_name _ _); rewrite Hcase.
    + split; [|done]. unfold stable. cbn. rewrite length_insert. by repeat split.
    + split; [by repeat split|done].
Qed.

Lemma for_each_stable env l : forall w,
  stable (self w) (self (for_each (annotateFace env) l w).2) /\
  (forall e, (for_each (annotateFace env) l w).1 ≠ Throw e).
Proof.
  induction l as [|i l IH]; intros w; [split; [apply stable_refl|done]|].
  cbn [for_each]. unfold bind.
  destruct (annotateFace_stable env i w) as [Hst Hno].
  destruct (annotateFace env i w) as [[[]|e|f] w1] eqn:Hstep; cbn in *.
  - destruct (IH w1) as [Hst' Hno']. split; [by eapply stable_trans|done].
  - by destruct (Hno e).
  - done.
Qed.

(** With a flag for every face, the loop never indexes outside a vector:
    it ends, or it is caught in the file-name search. *)
Lemma annotate_loop_outcome env n : forall s w,
  (s + n <= length (faces (self w)))%nat ->
  (s + n <= length (facesSaved (self w)))%nat ->
  (for_each (annotateFace env) (seq s n) w).1 = Done tt \/
  (for_each (annotateFace env) (seq s n) w).1 = Undefined EndlessLoop.
Proof.
  induction n as [|n IH]; intros s w Hfs Hsv; [by left|].
  cbn [seq for_each]. unfold bind.
  destruct (annotateFace_stable env s w) as [(Hst1 & Hst2 & _) _].
  pose proof (annotateFace_cases env s w) as Hcase.
  destruct (lookup_lt_is_Some_2 (faces (self w)) s) as [r Hr]; [lia|].
  destruct (lookup_lt_is_Some_2 (facesSaved (self w)) s) as [b Hb]; [lia|].
  rewrite Hr, Hb in Hcase. destruct b.
  - rewrite Hcase in *. cbn in Hst1, Hst2. apply IH; cbn; lia.
  - cbn zeta in Hcase. destruct (unique_name _ _); rewrite Hcase in *; [|by right].
    cbn in Hst1, Hst2. apply IH; cbn; [lia|]. rewrite length_insert. lia.
Qed.

(** On a disk that is far from holding [INT_MAX] paths the loop ends. *)
Lemma annotate_loop_total env n : forall s w,
  (s + n <= length (faces (self w)))%nat ->
  (s + n <= length (facesSaved (self w)))%nat ->
  Z.of_nat (size (disk w)) + 2 * Z.of_nat n < Int.INT_MAX ->
  (for_each (annotateFace env) (seq s n) w).1 = Done tt.
Proof.
  induction n as [|n IH]; intros s w Hfs Hsv Hroom; [done|].
  cbn [seq for_each]. unfold bind.
  pose proof (annotateFace_cases env s w) as Hcase.
  destruct (lookup_lt_is_Some_2 (faces (self w)) s) as [r Hr]; [lia|].
  destruct (lookup_lt_is_Some_2 (facesSaved (self w)) s) as [b Hb]; [lia|].
  rewrite Hr, Hb in Hcase. destruct b.
  - rewrite Hcase. apply IH; cbn; lia.
  - cbn zeta in Hcase.
    pose proof (size_add_path "faces" (disk w)) as Hdir.
    destruct (unique_name_first (create_directory "faces" (disk w)) (clock env s))
      as (j & _ & Hname & _); [unfold create_directory; lia|].
    rewrite Hname in Hcase. rewrite Hcase. apply IH; cbn.
    + lia.
    + rewrite length_insert. lia.
    + pose proof (size_add_path (candidate (clock env s) j)
                                (create_directory "faces" (disk w))) as Hfile.
      unfold create_directory in *. lia.
Qed.

(** ** [annotateFrame] as a whole *)

Lemma annotateFrame_unfold env w :
  annotateFrame env w =
  match for_each (annotateFace env) (seq 0 (length (faces (self w)))) w with
  | (Done _, w1) =>
      (Done tt, on_self (fun d => set_frame
                                    (draw (summary (length (faces (self w)))) (frame d)) d) w1)
  | (Throw e, w1) => (Throw e, w1)
  | (Undefined f, w1) => (Undefined f, w1)
  end.
Proof. done. Qed.

Lemma annotateFrame_stable env w :
  stable (self w) (self (annotateFrame env w).2) /\
  (forall e, (annotateFrame env w).1 ≠ Throw e).
Proof.
  rewrite annotateFrame_unfold.
  destruct (for_each_stable env (seq 0 (length (faces (self w)))) w) as [Hst Hno].
  destruct (for_each _ _ w) as [[[]|e|f] w1]; cbn in *; [done | | done].
  by destruct (Hno e).
Qed.

Lemma annotateFrame_done env w w' :
  flags_match (self w) ->
  annotateFrame env w = (Done tt, w') ->
  let n := length (faces (self w)) in
  self w' = set_frame (draws (drawings_range (self w) 0 n ++ [summary n]) (frame (self w)))
              (set_facesSaved (replicate n true) (self w)) /\
  exists new,
    imwrites w' = imwrites w ++ new /\
    new.*2 = unsaved_rects (faces (self w)) (facesSaved (self w)) /\
    NoDup new.*1 /\
    (forall f, f ∈ new.*1 -> (f ∉ disk w) /\ f ∈ disk w') /\
    disk w ⊆ disk w' /\
    (new = [] -> disk w' = disk w) /\
    (size (disk w') <= size (disk w) + 2 * length new)%nat.
Proof.
  intros Hmatch Hrun n. rewrite annotateFrame_unfold in Hrun.
  destruct (for_each _ _ w) as [[[]|e|f] w1] eqn:Hloop; try discriminate Hrun.
  injection Hrun as <-.
  pose proof (for_each_stable env (seq 0 n) w) as [(_ & Hlen & _) _].
  fold n in Hloop. rewrite Hloop in Hlen. cbn in Hlen.
  apply annotate_loop_done in Hloop
    as (Hflags & Hself & new & Hlog & Hrects & Hdup & Hfresh & Hsub & Hnil & Hsize).
  assert (facesSaved (self w1) = replicate n true) as Hall.
  { apply list_eq. intros j. rewrite Hflags. case_decide as Hj.
    - symmetry. apply lookup_replicate_2. lia.
    - rewrite lookup_ge_None_2 by (unfold flags_match in Hmatch; lia).
      symmetry. apply lookup_ge_None_2. rewrite length_replicate. lia. }
  split.
  - cbn. rewrite Hself, Hall, draws_app. done.
  - exists new. split_and!; done.
Qed.

Lemma annotateFrame_total env w :
  flags_match (self w) ->
  Z.of_nat (size (disk w)) + 2 * Z.of_nat (length (faces (self w))) < Int.INT_MAX ->
  (annotateFrame env w).1 = Done tt.
Proof.
  intros Hmatch Hroom. rewrite annotateFrame_unfold.
  pose proof (annotate_loop_total env (length (faces (self w))) 0 w) as Hloop.
  destruct (for_each _ _ w) as [[[]|e|f] w1]; cbn in *; try done;
    discriminate Hloop; (lia || (unfold flags_match in Hmatch; lia) || done).
Qed.

(** ** [processFrame], path by path *)

Lemma processFrame_empty env w :
  empty (captured env) = true ->
  processFrame env w = (Throw CaptureFailed, on_self (set_frame (captured env)) w).
Proof.
  intros Hempty. unfold processFrame, bind, modify, get, throw. cbn.
  by rewrite Hempty.
Qed.

Lemma processFrame_zero_divisor env w :
  empty (captured env) = false ->
  Int.add (frameSkipCount (self w)) 1 = 0 ->
  processFrame env w = (Undefined DivideByZero, on_self (skipped env) w).
Proof.
  intros Hempty Hzero. unfold processFrame, bind, modify, get, undefined. cbn.
  rewrite Hempty. cbn. by rewrite decide_True.
Qed.

Lemma processFrame_skip env w :
  empty (captured env) = false ->
  Int.add (frameSkipCount (self w)) 1 ≠ 0 ->
  ¬ due (self w) ->
  processFrame env w = (Done tt, on_self (skipped env) w).
Proof.
  intros Hempty Hnz Hskip. unfold processFrame, bind, modify, get, ret. cbn.
  rewrite Hempty. cbn. rewrite decide_False by done. cbn.
  by rewrite decide_True.
Qed.

Lemma processFrame_full env w :
  empty (captured env) = false ->
  Int.add (frameSkipCount (self w)) 1 ≠ 0 ->
  due (self w) ->
  processFrame env w =
  (annotateFrame env ;;
   modify (fun d => set_videoWriter (videoWriter d ++ [frame d]) d))
    (on_self (prepared env) w).
Proof.
  intros Hempty Hnz Hdue. unfold processFrame, bind at 1 2 3 4 5 6, modify at 1 2, get. cbn.
  rewrite Hempty. cbn. rewrite decide_False by done. cbn.
  rewrite decide_False by (intros Hne; by apply Hne). done.
Qed.

Lemma length_syncSavedFlags n saved : length (syncSavedFlags n saved) = n.
Proof.
  unfold syncSavedFlags. case_decide as Hn; [by rewrite length_resize | done].
Qed.

Lemma syncSavedFlags_same n saved : length saved = n -> syncSavedFlags n saved = saved.
Proof. intros Hn. unfold syncSavedFlags. by rewrite decide_False by (intros ?; done). Qed.

Lemma prepared_flags_match env d : flags_match (prepared env d).
Proof. unfold flags_match. cbn. apply length_syncSavedFlags. Qed.

(** A full cycle on a disk with room for its crops: what it leaves behind. *)
Lemma processFrame_full_done env w :
  empty (captured env) = false ->
  Int.add (frameSkipCount (self w)) 1 ≠ 0 ->
  due (self w) ->
  Z.of_nat (size (disk w)) + 2 * Z.of_nat (length (detected env)) < Int.INT_MAX ->
  let n := length (detected env) in
  let d := prepared env (self w) in
  exists w' new,
    processFrame env w = (Done tt, w') /\
    self w' = set_videoWriter (videoWriter (self w) ++ [frame (self w')])
                (set_frame (draws (drawings_range d 0 n ++ [summary n]) (captured env))
                   (set_facesSaved (replicate n true) d)) /\
    imwrites w' = imwrites w ++ new /\
    new.*2 = unsaved_rects (detected env) (syncSavedFlags n (facesSaved (self w))) /\
    NoDup new.*1 /\
    (forall f, f ∈ new.*1 -> (f ∉ disk w) /\ f ∈ disk w') /\
    disk w ⊆ disk w' /\
    (new = [] -> disk w' = disk w) /\
    (size (disk w') <= size (disk w) + 2 * length new)%nat.
Proof.
  intros Hempty Hnz Hdue Hroom n d.
  rewrite (processFrame_full env w Hempty Hnz Hdue). unfold bind.
  pose proof (annotateFrame_total env (on_self (prepared env) w)
                (prepared_flags_match env (self w)) Hroom) as Htotal.
  destruct (annotateFrame env (on_self (prepared env) w)) as [o w1] eqn:Hrun.
  cbn in Htotal. subst o.
  apply annotateFrame_done in Hrun; [|apply prepared_flags_match].
  destruct Hrun as (Hself & new & Hlog & Hrects & Hdup & Hfresh & Hsub & Hnil & Hsize).
  eexists _, new. split; [reflexivity|]. cbn in *.
  split_and!; try done. rewrite Hself. done.
Qed.

(** ** Saved flags when the number of detections changes (C1) *)

(** C1, counterexample: after a cycle with two faces both flags are set; a
    cycle that finds three faces resizes the flags to three slots but keeps
    the two set flags, so it is not "reset entirely", and it crops only the
    third face. *)
Lemma saved_flags_reset_counterexample :
  length (detected env_three) ≠ length (facesSaved (self world_two)) /\
  facesSaved (prepared env_three (self world_two)) = [true; true; false] /\
  facesSaved (prepared env_three (self world_two)) ≠ replicate 3 false /\
  (imwrites world_two).*2 = [face_a; face_b] /\
  (imwrites (processFrame env_three world_two).2).*2 = [face_a; face_b; face_c].
Proof. split_and!; by vm_compute. Qed.

(** C1, as amended: in a full cycle whose number of detections differs from
    the length of the saved flags, [annotateFrame] is entered with flags
    resized to the new count; the flag of every retained index is the one it
    had before, and only the added slots are "not saved". *)
Theorem resize_keeps_retained_flags env w :
  empty (captured env) = false ->
  Int.add (frameSkipCount (self w)) 1 ≠ 0 ->
  due (self w) ->
  length (detected env) ≠ length (facesSaved (self w)) ->
  let n := length (detected env) in
  let d := prepared env (self w) in
  processFrame env w =
    (annotateFrame env ;;
     modify (fun d' => set_videoWriter (videoWriter d' ++ [frame d']) d'))
      (on_self (prepared env) w) /\
  length (facesSaved d) = n /\
  (forall i b, (i < n)%nat -> facesSaved (self w) !! i = Some b ->
               facesSaved d !! i = Some b) /\
  (forall i, (length (facesSaved (self w)) <= i < n)%nat ->
             facesSaved d !! i = Some false).
Proof.
  intros Hempty Hnz Hdue Hdiff n d. split_and!.
  - by apply processFrame_full.
  - apply length_syncSavedFlags.
  - intros i b Hi Hb. cbn. unfold syncSavedFlags.
    rewrite decide_True by (intros Heq; by apply Hdiff).
    rewrite lookup_resize; [done | done |].
    by apply lookup_lt_Some in Hb.
  - intros i Hi. cbn. unfold syncSavedFlags.
    rewrite decide_True by (intros Heq; by apply Hdiff).
    apply lookup_resize_new; lia.
Qed.

(** The three-face cycle that follows the two-face one. *)
Lemma resize_keeps_retained_flags_witness :
  facesSaved (prepared env_three (self world_two)) !! 1%nat = Some true /\
  facesSaved (prepared env_three (self world_two)) !! 2%nat = Some false.
Proof.
  assert (empty (captured env_three) = false) as H1 by reflexivity.
  assert (Int.add (frameSkipCount (self world_two)) 1 ≠ 0) as H2
    by (vm_compute; discriminate).
  assert (due (self world_two)) as H3 by reflexivity.
  assert (length (detected env_three) ≠ length (facesSaved (self world_two))) as H4
    by (vm_compute; discriminate).
  destruct (resize_keeps_retained_flags env_three world_two H1 H2 H3 H4)
    as (_ & _ & Hold & Hnew).
  split.
  - apply Hold; [vm_compute; lia | reflexivity].
  - apply Hnew. vm_compute. lia.
Defined.

(** ** The summary line (C2) *)

(** C2, counterexample: with no detection the line drawn on the processed
    frame reads "0 face found", not "0 faces found". *)
Lemma summary_zero_counterexample :
  faceMessage 0 ≠ "0 faces found" /\
  last (overlay_of (frame (self (processFrame env_none fresh_world).2)))
  = Some (PutText "0 face found" (10, 40)).
Proof. split; by vm_compute. Qed.

Lemma faceMessage_plural (n : nat) :
  faceMessage n =
  to_string (Z.of_nat n) +:+ (if decide (1 < n)%nat then " faces found" else " face found").
Proof.
  unfold faceMessage. destruct (Z.ltb_spec 1 (Z.of_nat n)); case_decide; try lia; done.
Qed.

(** C2, as amended: every fully processed frame ends with the summary line
    at (10, 40); it is the detection count followed by " faces found" when
    the count exceeds 1 and by " face found" otherwise, so 0 detections give
    "0 face found", 1 gives "1 face found" and 2 give "2 faces found". *)
Theorem summary_line env w :
  empty (captured env) = false ->
  Int.add (frameSkipCount (self w)) 1 ≠ 0 ->
  due (self w) ->
  Z.of_nat (size (disk w)) + 2 * Z.of_nat (length (detected env)) < Int.INT_MAX ->
  let n := length (detected env) in
  exists w',
    processFrame env w = (Done tt, w') /\
    last (overlay_of (frame (self w'))) = Some (PutText (faceMessage n) (10, 40)) /\
    last (videoWriter (self w')) = Some (frame (self w')) /\
    faceMessage n =
      to_string (Z.of_nat n)
        +:+ (if decide (1 < n)%nat then " faces found" else " face found") /\
    faceMessage 0 = "0 face found" /\
    faceMessage 1 = "1 face found" /\
    faceMessage 2 = "2 faces found".
Proof.
  intros Hempty Hnz Hdue Hroom n.
  destruct (processFrame_full_done env w Hempty Hnz Hdue Hroom)
    as (w' & new & Hrun & Hself & _).
  exists w'. split_and!; [done | | | apply faceMessage_plural | done | done | done].
  - rewrite Hself. cbn. destruct (captured env) as [|id ov]; [done|].
    rewrite draws_picture. cbn. by rewrite !app_assoc, last_snoc.
  - rewrite Hself at 1. cbn. by rewrite last_snoc.
Qed.

(** The first cycle of the two-face scene. *)
Lemma summary_line_witness :
  exists w',
    processFrame env_two fresh_world = (Done tt, w') /\
    last (overlay_of (frame (self w'))) = Some (PutText "2 faces found" (10, 40)).
Proof.
  assert (empty (captured env_two) = false) as H1 by reflexivity.
  assert (Int.add (frameSkipCount (self fresh_world)) 1 ≠ 0) as H2
    by (vm_compute; discriminate).
  assert (due (self fresh_world)) as H3 by reflexivity.
  assert (Z.of_nat (size (disk fresh_world)) + 2 * Z.of_nat (length (detected env_two))
          < Int.INT_MAX) as H4 by (vm_compute; reflexivity).
  destruct (summary_line env_two fresh_world H1 H2 H3 H4) as (w' & Hrun & Hlast & _).
  exists w'. split; [exact Hrun | exact Hlast].
Defined.

(** ** Capture failure (C7) *)

Lemma processFrame_throws env w e :
  (processFrame env w).1 = Throw e -> empty (captured env) = true.
Proof.
  intros Hthrow. destruct (empty (captured env)) eqn:Hempty; [done|]. exfalso.
  destruct (decide (Int.add (frameSkipCount (self w)) 1 = 0)) as [Hz|Hnz].
  { by rewrite processFrame_zero_divisor in Hthrow. }
  destruct (decide (due (self w))) as [Hdue|Hskip]; [|by rewrite processFrame_skip in Hthrow].
  rewrite processFrame_full in Hthrow by done. unfold bind in Hthrow.
  destruct (annotateFrame_stable env (on_self (prepared env) w)) as [_ Hno].
  destruct (annotateFrame env (on_self (prepared env) w)) as [[[]|e'|f] w1];
    cbn in *; try done. by destruct (Hno e').
Qed.

(** ** When a filesystem call fails *)

Lemma or_fails_refl {A} fs (m : M A) : or_fails fs m m.
Proof. intros w. by left. Qed.

Lemma or_fails_bind {A B} fs (m' m : M A) (k' k : A -> M B) :
  or_fails fs m' m -> (forall a, or_fails fs (k' a) (k a)) ->
  or_fails fs (bind m' k') (bind m k).
Proof.
  intros Hm Hk w. unfold bind.
  destruct (Hm w) as [->|(message & w' & -> & Hfail)].
  - destruct (m w) as [[a|e|f] w1]; [apply Hk | by left | by left].
  - right. by exists message, w'.
Qed.

Lemma or_fails_cooperative {A} (m' m : M A) w :
  or_fails cooperative m' m -> m' w = m w.
Proof.
  intros H. destruct (H w) as [|(message & w' & _ & p & [Hp|Hp])]; [done | ..];
    discriminate Hp.
Qed.

Lemma fs_unique_loop_or_fails fs fuel : forall now count newFilename w,
  Fs.unique_loop fs fuel now count newFilename w
  = match unique_loop fuel (disk w) now count newFilename with
    | Some f => (Done f, w)
    | None => (Undefined EndlessLoop, w)
    end \/
  exists message,
    Fs.unique_loop fs fuel now count newFilename w = (Throw (filesystem_error message), w) /\
    failure_of fs message.
Proof.
  induction fuel as [|fuel IH]; intros now count newFilename w;
    cbn [Fs.unique_loop unique_loop]; unfold bind, Fs.path_exists;
    destruct (unreadable fs newFilename) as [message|] eqn:Hstatus;
    try (right; exists message; split; [done | exists newFilename; by right]).
  - left. destruct (decide (newFilename ∈ disk w)) as [Hin|Hout].
    + by rewrite bool_decide_eq_true_2.
    + by rewrite bool_decide_eq_false_2.
  - destruct (decide (newFilename ∈ disk w)) as [Hin|Hout].
    + rewrite bool_decide_eq_true_2 by done. apply IH.
    + rewrite bool_decide_eq_false_2 by done. by left.
Qed.

Lemma fs_getUniqueFilename_or_fails fs now :
  or_fails fs (Fs.getUniqueFilename fs now) (getUniqueFilename now).
Proof.
  intros w. unfold Fs.getUniqueFilename, Fs.create_directory, getUniqueFilename, bind.
  destruct (refused fs "faces") as [message|] eqn:Hdir.
  { right. exists message, w. split; [done|]. exists "faces". by left. }
  unfold unique_name, create_directory. cbn [disk].
  destruct (fs_unique_loop_or_fails fs
              (S (size ({[ "faces" ]} ∪ disk w))) now 1 (plain_name now)
              (mkWorld (self w) ({[ "faces" ]} ∪ disk w) (imwrites w)))
    as [Heq|(message & Heq & Hfail)]; cbn [disk] in Heq; rewrite Heq.
  - left. by destruct (unique_loop _ _ _ _ _).
  - right. by eexists _, _.
Qed.

Lemma fs_annotateFace_or_fails fs env i :
  or_fails fs (Fs.annotateFace fs env i) (annotateFace env i).
Proof.
  unfold Fs.annotateFace, annotateFace.
  apply or_fails_bind; [apply or_fails_refl | intros faces_].
  apply or_fails_bind; [apply or_fails_refl | intros r].
  apply or_fails_bind; [apply or_fails_refl | intros _].
  apply or_fails_bind; [apply or_fails_refl | intros saved].
  apply or_fails_bind; [apply or_fails_refl | intros is_saved].
  apply or_fails_bind; [| intros _; apply or_fails_refl].
  destruct is_saved; [apply or_fails_refl|]. cbn [negb].
  apply or_fails_bind; [apply fs_getUniqueFilename_or_fails | intros filename].
  apply or_fails_refl.
Qed.

Lemma or_fails_for_each fs (body' body : nat -> M unit) indices :
  (forall i, or_fails fs (body' i) (body i)) ->
  or_fails fs (for_each body' indices) (for_each body indices).
Proof.
  intros Hbody. induction indices as [|i indices IH]; [apply or_fails_refl|].
  cbn [for_each]. apply or_fails_bind; [apply Hbody | intros _; apply IH].
Qed.

Lemma fs_annotateFrame_or_fails fs env :
  or_fails fs (Fs.annotateFrame fs env) (annotateFrame env).
Proof.
  unfold Fs.annotateFrame, annotateFrame.
  apply or_fails_bind; [apply or_fails_refl | intros faces_].
  apply or_fails_bind; [| intros _; apply or_fails_refl].
  apply or_fails_for_each. intros i. apply fs_annotateFace_or_fails.
Qed.

(** A call of [processFrame] goes as on a filesystem that answers every
    call, or ends with the error of a filesystem call. *)
Lemma fs_processFrame_or_fails fs env :
  or_fails fs (Fs.processFrame fs env) (processFrame env).
Proof.
  unfold Fs.processFrame, processFrame.
  apply or_fails_bind; [apply or_fails_refl | intros _].
  apply or_fails_bind; [apply or_fails_refl | intros fr].
  destruct (empty fr); [apply or_fails_refl|].
  apply or_fails_bind; [apply or_fails_refl | intros _].
  apply or_fails_bind; [apply or_fails_refl | intros counter].
  apply or_fails_bind; [apply or_fails_refl | intros skip].
  destruct (decide (Int.add skip 1 = 0)); [apply or_fails_refl|].
  destruct (decide (Z.rem counter (Int.add skip 1) ≠ 0)); [apply or_fails_refl|].
  apply or_fails_bind; [apply or_fails_refl | intros _].
  apply or_fails_bind; [apply or_fails_refl | intros _].
  apply or_fails_bind; [apply or_fails_refl | intros _].
  apply or_fails_bind; [apply fs_annotateFrame_or_fails | intros _].
  apply or_fails_refl.
Qed.

Lemma fs_run_or_fails fs envs : or_fails fs (Fs.run fs envs) (run envs).
Proof.
  induction envs as [|env envs IH]; [apply or_fails_refl|].
  cbn [Fs.run run]. apply or_fails_bind; [apply fs_processFrame_or_fails | intros _; apply IH].
Qed.

(** On a filesystem that answers every call the two descriptions agree. *)
Lemma fs_cooperative_getUniqueFilename now w :
  Fs.getUniqueFilename cooperative now w = getUniqueFilename now w.
Proof. apply or_fails_cooperative, fs_getUniqueFilename_or_fails. Qed.

Lemma fs_cooperative_processFrame env w :
  Fs.processFrame cooperative env w = processFrame env w.
Proof. apply or_fails_cooperative, fs_processFrame_or_fails. Qed.

Lemma fs_cooperative_run envs w : Fs.run cooperative envs w = run envs w.
Proof. apply or_fails_cooperative, fs_run_or_fails. Qed.

Lemma fs_processFrame_empty fs env w :
  empty (captured env) = true ->
  Fs.processFrame fs env w = (Throw CaptureFailed, on_self (set_frame (captured env)) w).
Proof.
  intros Hempty. unfold Fs.processFrame, bind, modify, get, throw. cbn.
  by rewrite Hempty.
Qed.

(** How a call can end in an exception. *)
Lemma fs_processFrame_throws fs env w e :
  (Fs.processFrame fs env w).1 = Throw e ->
  (e = CaptureFailed /\ empty (captured env) = true) \/
  (exists message, e = filesystem_error message /\ failure_of fs message /\
                   empty (captured env) = false).
Proof.
  intros Hthrow. destruct (empty (captured env)) eqn:Hempty.
  { rewrite fs_processFrame_empty in Hthrow by done. left. split; [|done].
    by injection Hthrow. }
  destruct (fs_processFrame_or_fails fs env w) as [Heq|(message & w' & Heq & Hfail)];
    rewrite Heq in Hthrow.
  - apply processFrame_throws in Hthrow. congruence.
  - right. exists message. split_and!; [|done..]. by injection Hthrow.
Qed.

(** C7: [processFrame] throws [CaptureFailed] exactly when the read leaves
    the frame empty, whatever the filesystem answers: a call on a non-empty
    capture may end with the error of a filesystem call, but never with
    [CaptureFailed].  On an empty read the call ends there, with one read and
    no second attempt: the object holds the empty frame, and its counter,
    detections, saved flags and video sink, as well as the disk and the log
    of image writes, are as they were. *)
Theorem capture_failure fs env w :
  ((Fs.processFrame fs env w).1 = Throw CaptureFailed <-> empty (captured env) = true) /\
  (empty (captured env) = true ->
   let w' := (Fs.processFrame fs env w).2 in
   frame (self w') = captured env /\
   frameCounter (self w') = frameCounter (self w) /\
   faces (self w') = faces (self w) /\
   facesSaved (self w') = facesSaved (self w) /\
   videoWriter (self w') = videoWriter (self w) /\
   disk w' = disk w /\
   imwrites w' = imwrites w).
Proof.
  split.
  - split.
    + intros Hthrow.
      destruct (fs_processFrame_throws fs env w _ Hthrow)
        as [[_ Hempty]|(message & Hmsg & _)]; [done | discriminate Hmsg].
    + intros Hempty. by rewrite fs_processFrame_empty.
  - intros Hempty. rewrite fs_processFrame_empty by done. by repeat split.
Qed.

(** ** The distance estimate at given widths (C5) *)

(** C5: for a positive pixel width the estimate is the product of the
    reference width and the focal length, divided by the width taken as a
    double; with focal length 800 and reference width 14 cm, a width of 100
    pixels gives 112 (printed "112.00") and a width of 200 gives 56
    (printed "56.00"). *)
Theorem estimateDistance_formula d pixelWidth :
  0 < pixelWidth ->
  estimateDistance d pixelWidth
  = (realFaceWidth d * focalLength d / of_uint63 (Uint63.of_Z pixelWidth))%float /\
  (focalLength d = 800%float -> realFaceWidth d = 14%float ->
   estimateDistance d 100 = 112%float /\
   fixed2 (estimateDistance d 100) = "112.00" /\
   estimateDistance d 200 = 56%float /\
   fixed2 (estimateDistance d 200) = "56.00").
Proof.
  intros Hpos. split.
  - unfold estimateDistance, double_of_int.
    destruct (Z.ltb_spec pixelWidth 0); [lia | done].
  - intros Hfocal Hreal. unfold estimateDistance. rewrite Hfocal, Hreal.
    split_and!; by vm_compute.
Qed.

(** The program's calibration at a width of 100 pixels. *)
Lemma estimateDistance_formula_witness :
  estimateDistance (self fresh_world) 100 = 112%float /\
  fixed2 (estimateDistance (self fresh_world) 200) = "56.00".
Proof.
  assert (0 < 100) as Hpos by lia.
  destruct (estimateDistance_formula (self fresh_world) 100 Hpos) as [_ Hvalues].
  destruct (Hvalues eq_refl eq_refl) as (H100 & _ & _ & H200).
  split; [exact H100 | exact H200].
Defined.

(** ** The distance estimate is strictly decreasing (C6)

    Division of doubles is followed through the specification of binary64
    ([SFdiv], [binary_round_aux]).  For a dividend of 53 bits and a divisor
    that is a positive [int], the integer quotient has 53 or 54 bits, so the
    rounding shifts by at most one bit, and the result stays within half a
    unit in the last place of the exact quotient. *)

Lemma digits2_pos_bounds p :
  2 ^ (Zpos (digits2_pos p) - 1) <= Zpos p < 2 ^ Zpos (digits2_pos p).
Proof.
  induction p as [p IH|p IH|]; cbn [digits2_pos].
  - rewrite Pos2Z.inj_succ. replace (Z.succ (Zpos (digits2_pos p)) - 1)
      with (Z.succ (Zpos (digits2_pos p) - 1)) by lia.
    rewrite !Z.pow_succ_r by lia. lia.
  - rewrite Pos2Z.inj_succ. replace (Z.succ (Zpos (digits2_pos p)) - 1)
      with (Z.succ (Zpos (digits2_pos p) - 1)) by lia.
    rewrite !Z.pow_succ_r by lia. lia.
  - cbn. lia.
Qed.

Lemma digits2_pos_unique p d :
  0 < d -> 2 ^ (d - 1) <= Zpos p < 2 ^ d -> Zpos (digits2_pos p) = d.
Proof.
  intros Hd [Hlo Hhi]. destruct (digits2_pos_bounds p) as [Hlo' Hhi'].
  assert (d - 1 < Zpos (digits2_pos p)) by (apply (Z.pow_lt_mono_r_iff 2); lia).
  assert (Zpos (digits2_pos p) - 1 < d) by (apply (Z.pow_lt_mono_r_iff 2); lia).
  lia.
Qed.

Lemma new_location_matches den r :
  0 <= r < den -> loc_matches (new_location den r) r den.
Proof.
  intros Hr. unfold new_location, new_location_even, new_location_odd.
  destruct (Z.even den) eqn:Heven; destruct (Z.eqb_spec r 0) as [->|Hne]; cbn; try done.
  split; [done|].
  assert (2 * r ≠ den).
  { intros Heq. rewrite <- Heq in Heven. rewrite Z.even_mul in Heven. discriminate. }
  destruct (Z.compare_spec (2 * r + 1) den); destruct (Z.compare_spec (2 * r) den);
    try reflexivity; lia.
Qed.

Ltac pow2 :=
  change (2 ^ 52) with 4503599627370496 in *;
  change (2 ^ 53) with 9007199254740992 in *;
  change (2 ^ 54) with 18014398509481984 in *;
  change (2 ^ 0) with 1 in *;
  change (2 ^ 1) with 2 in *;
  change (2 ^ 2) with 4 in *.

Lemma shr_fexp_53 q e l :
  2 ^ 52 <= q < 2 ^ 53 -> -1074 <= e ->
  shr_fexp prec emax q e l = (shr_record_of_loc q l, e).
Proof.
  intros Hq He. destruct q as [|p|p]; try (pow2; lia).
  unfold shr_fexp. cbn [Zdigits2]. rewrite (digits2_pos_unique p 53) by (done || lia).
  unfold fexp, SpecFloat.emin, prec, emax.
  replace (Z.max (53 + e - 53) (3 - 1024 - 53) - e) with 0 by lia. done.
Qed.

Lemma shr_fexp_54 q e l :
  2 ^ 53 <= q < 2 ^ 54 -> -1074 <= e ->
  shr_fexp prec emax q e l = (shr_1 (shr_record_of_loc q l), e + 1).
Proof.
  intros Hq He. destruct q as [|p|p]; try (pow2; lia).
  unfold shr_fexp. cbn [Zdigits2]. rewrite (digits2_pos_unique p 54) by (done || lia).
  unfold fexp, SpecFloat.emin, prec, emax.
  replace (Z.max (54 + e - 53) (3 - 1024 - 53) - e) with 1 by lia. done.
Qed.

Lemma loc_of_shr_record_of_loc m l : loc_of_shr_record (shr_record_of_loc m l) = l.
Proof. by destruct l as [|[]]. Qed.

Lemma shr_m_of_loc m l : shr_m (shr_record_of_loc m l) = m.
Proof. by destruct l as [|[]]. Qed.

Lemma finish_spec M1 e1 :
  2 ^ 52 <= M1 <= 2 ^ 53 -> -1074 <= e1 ->
  e1 + (if M1 =? 2 ^ 53 then 1 else 0) <= 971 ->
  exists M k, finish M1 e1 = S754_finite false M (e1 + k) /\
              0 <= k <= 1 /\ 2 ^ 52 <= Zpos M < 2 ^ 53 /\ Zpos M * 2 ^ k = M1.
Proof.
  intros HM He Hfit. unfold finish. destruct (Z.eqb_spec M1 (2 ^ 53)) as [->|Hne].
  - rewrite shr_fexp_54 by (pow2; lia). cbn [shr_record_of_loc shr_m shr_1].
    exists (4503599627370496%positive), 1. pow2.
    replace (e1 + 1 <=? emax - prec) with true
      by (symmetry; apply Z.leb_le; unfold emax, prec; lia).
    repeat split; (done || lia).
  - rewrite shr_fexp_53 by (pow2; lia). cbn [shr_record_of_loc shr_m].
    destruct M1 as [|p|p]; try (pow2; lia).
    exists p, 0. pow2.
    replace (e1 <=? emax - prec) with true
      by (symmetry; apply Z.leb_le; unfold emax, prec; lia).
    rewrite Z.add_0_r. repeat split; (done || lia).
Qed.

Lemma binary_round_aux_finish q e l :
  binary_round_aux prec emax false q e l =
  let '(mrs, e1) := shr_fexp prec emax q e l in
  finish (round_nearest_even (shr_m mrs) (loc_of_shr_record mrs)) e1.
Proof. unfold binary_round_aux, finish. by destruct (shr_fexp prec emax q e l). Qed.

(** Rounding to nearest a quotient [num / den] whose integer part [q] has 53
    or 54 bits: the result is a normal number within half a unit in the last
    place of the quotient. *)
Lemma binary_round_aux_normal q e l num den :
  2 ^ 52 <= q < 2 ^ 54 -> -1074 <= e -> 0 < den ->
  0 <= num - q * den < den ->
  loc_matches l (num - q * den) den ->
  e + 2 <= 971 \/ (e + 1 <= 971 /\ num = q * den /\ Z.even q = true) ->
  exists M k,
    binary_round_aux prec emax false q e l = S754_finite false M (e + k) /\
    0 <= k <= 2 /\ 2 ^ 52 <= Zpos M < 2 ^ 53 /\
    2 * Z.abs (Zpos M * 2 ^ k * den - num) <= den * 2 ^ k.
Proof.
  intros Hq He Hden Hr Hloc Hfit. rewrite binary_round_aux_finish.
  set (r := num - q * den) in *.
  assert (num = q * den + r) as Hnum by (unfold r; lia). clearbody r. subst num.
  destruct (Z_lt_le_dec q (2 ^ 53)) as [Hsmall|Hbig].
  - (* no shift *)
    rewrite shr_fexp_53 by lia. rewrite shr_m_of_loc, loc_of_shr_record_of_loc.
    set (M1 := round_nearest_even q l).
    assert (q <= M1 <= q + 1 /\ 2 * Z.abs (M1 * den - (q * den + r)) <= den /\
            (r = 0 -> M1 = q)) as (HM1 & Hhalf & Hexact).
    { unfold M1. destruct l as [|[]]; cbn in Hloc |- *.
      - subst r. repeat split; lia.
      - destruct Hloc as [Hne Hcmp]. apply Z.compare_eq in Hcmp.
        destruct (Z.even q); repeat split; lia.
      - destruct Hloc as [Hne Hcmp]. rewrite Z.compare_lt_iff in Hcmp. repeat split; lia.
      - destruct Hloc as [Hne Hcmp]. rewrite Z.compare_gt_iff in Hcmp. repeat split; lia. }
    destruct (finish_spec M1 e) as (M & k & Hfin & Hk & HM & Hval).
    { pow2. lia. } { done. }
    { destruct (Z.eqb_spec M1 (2 ^ 53)) as [Heq|]; [|lia].
      destruct Hfit as [|(_ & Hex & _)]; [lia|].
      assert (r = 0) as Hr0 by lia. apply Hexact in Hr0. pow2. lia. }
    exists M, k. split; [done|]. split; [lia|]. split; [done|].
    assert (k = 0 \/ k = 1) as [->| ->] by lia; pow2; lia.
  - (* one bit shifted out *)
    rewrite shr_fexp_54 by lia.
    set (mrs := shr_1 (shr_record_of_loc q l)).
    set (M1 := round_nearest_even (shr_m mrs) (loc_of_shr_record mrs)).
    assert (exists M0, 2 ^ 52 <= M0 < 2 ^ 53 /\ M0 <= M1 <= M0 + 1 /\
              2 * Z.abs (M1 * 2 * den - (q * den + r)) <= 2 * den /\
              (r = 0 -> Z.even q = true -> M1 = M0)) as (M0 & HM0 & HM1 & Hhalf & Hexact).
    { unfold M1, mrs. destruct q as [|[p|p|]|]; try (pow2; lia).
      - (* odd *)
        exists (Zpos p). split; [pow2; lia|].
        assert (Z.even (Z.pos p~1) = false) as Hodd by done.
        destruct l as [|[]]; cbn [loc_matches] in Hloc;
          cbn [shr_record_of_loc shr_1 shr_m loc_of_shr_record round_nearest_even orb].
        + subst r. destruct (Z.even (Zpos p)); repeat split; try lia; congruence.
        + destruct Hloc as [Hne _]. repeat split; try lia; congruence.
        + destruct Hloc as [Hne _]. repeat split; try lia; congruence.
        + destruct Hloc as [Hne _]. repeat split; try lia; congruence.
      - (* even *)
        exists (Zpos p). split; [pow2; lia|].
        destruct l as [|[]]; cbn [loc_matches] in Hloc;
          cbn [shr_record_of_loc shr_1 shr_m loc_of_shr_record round_nearest_even orb].
        + subst r. repeat split; lia.
        + destruct Hloc as [Hne _]. repeat split; lia.
        + destruct Hloc as [Hne _]. repeat split; lia.
        + destruct Hloc as [Hne _]. repeat split; lia. }
    destruct (finish_spec M1 (e + 1)) as (M & k & Hfin & Hk & HM & Hval).
    { pow2. lia. } { lia. }
    { destruct (Z.eqb_spec M1 (2 ^ 53)) as [Heq|]; [|lia].
      destruct Hfit as [|(_ & Hex & Hev)]; [lia|].
      assert (r = 0) as Hr0 by lia. specialize (Hexact Hr0 Hev). pow2. lia. }
    exists M, (1 + k). rewrite Z.add_assoc. split; [done|]. split; [lia|]. split; [done|].
    assert (k = 0 \/ k = 1) as [->| ->] by lia; cbn [Z.add]; pow2; lia.
Qed.

Lemma iter_xO_pow m d : Zpos (Pos.iter xO m d) = Zpos m * 2 ^ Zpos d.
Proof.
  induction d as [|d IH] using Pos.peano_ind.
  - cbn [Pos.iter]. lia.
  - rewrite Pos.iter_succ, Pos2Z.inj_succ, Z.pow_succ_r by lia.
    rewrite Pos2Z.inj_xO, IH. lia.
Qed.

(** A positive [int] as a [double]: a mantissa of 53 bits and a negative
    exponent that scale to the integer exactly. *)
Lemma binary_normalize_int a :
  0 < a < 2 ^ 31 ->
  exists ma u,
    binary_normalize prec emax a 0 false = S754_finite false ma (- u) /\
    2 ^ 52 <= Zpos ma < 2 ^ 53 /\ 22 <= u <= 52 /\ Zpos ma = a * 2 ^ u.
Proof.
  intros Ha. destruct a as [|pa|pa]; try lia. cbn [binary_normalize].
  unfold binary_round.
  set (d := Zpos (digits2_pos pa)).
  pose proof (digits2_pos_bounds pa) as Hd. fold d in Hd.
  assert (1 <= d <= 31) as Hd31.
  { split; [unfold d; lia|].
    assert (d - 1 < 31) by (apply (Z.pow_lt_mono_r_iff 2); lia). lia. }
  assert (fexp prec emax (d + 0) = d - 53) as ->
    by (unfold fexp, SpecFloat.emin, prec, emax; lia).
  unfold shl_align.
  destruct (d - 53 - 0) as [|x|x] eqn:Hx; try lia.
  set (mz := Pos.iter xO pa x).
  assert (Zpos mz = Zpos pa * 2 ^ (53 - d)) as Hmz.
  { unfold mz. rewrite iter_xO_pow. f_equal. f_equal. lia. }
  assert (2 ^ 52 <= Zpos mz < 2 ^ 53) as Hrange.
  { rewrite Hmz.
    replace (2 ^ 52) with (2 ^ (d - 1) * 2 ^ (53 - d))
      by (rewrite <- Z.pow_add_r by lia; f_equal; lia).
    replace (2 ^ 53) with (2 ^ d * 2 ^ (53 - d))
      by (rewrite <- Z.pow_add_r by lia; f_equal; lia).
    assert (0 < 2 ^ (53 - d)) by (apply Z.pow_pos_nonneg; lia).
    split; [apply Z.mul_le_mono_nonneg_r | apply Z.mul_lt_mono_pos_r]; lia. }
  rewrite binary_round_aux_finish, shr_fexp_53 by lia.
  cbn [shr_record_of_loc shr_m loc_of_shr_record round_nearest_even].
  destruct (finish_spec (Zpos mz) (d - 53)) as (M & k & Hfin & Hk & HM & Hval).
  { lia. } { lia. }
  { destruct (Z.eqb_spec (Zpos mz) (2 ^ 53)); lia. }
  assert (k = 0) as -> by (assert (k = 0 \/ k = 1) as [->| ->] by lia; pow2; lia).
  pow2. assert (M = mz) as -> by lia.
  exists mz, (53 - d). rewrite Hfin. split; [f_equal; lia|].
  split; [lia|]. split; [lia|]. done.
Qed.

(** Division of a normal double [mc * 2 ^ ec] by a positive [int] held as
    [ma * 2 ^ (- u)]: a normal number within half a unit in the last place
    of the quotient. *)
Lemma SFdiv_by_int mc ec ma u :
  2 ^ 52 <= Zpos mc < 2 ^ 53 -> -1043 <= ec <= 971 ->
  2 ^ 52 <= Zpos ma < 2 ^ 53 -> 22 <= u <= 52 ->
  (u = 52 -> Zpos ma = 2 ^ 52) ->
  exists M k,
    SFdiv prec emax (S754_finite false mc ec) (S754_finite false ma (- u))
    = S754_finite false M (ec + u - 53 + k) /\
    0 <= k <= 2 /\ 2 ^ 52 <= Zpos M < 2 ^ 53 /\
    2 * Z.abs (Zpos M * 2 ^ k * Zpos ma - Zpos mc * 2 ^ 53) <= Zpos ma * 2 ^ k.
Proof.
  intros Hmc Hec Hma Hu Hone. cbn [SFdiv xorb]. unfold SFdiv_core_binary.
  cbn [Zdigits2]. rewrite (digits2_pos_unique mc 53), (digits2_pos_unique ma 53) by (done || lia).
  assert (Z.min (fexp prec emax (53 + ec - (53 + - u))) (ec - - u) = ec + u - 53) as ->
    by (unfold fexp, SpecFloat.emin, prec, emax; lia).
  replace (ec - - u - (ec + u - 53)) with 53 by lia.
  rewrite Z.shiftl_mul_pow2 by lia.
  set (num := Zpos mc * 2 ^ 53).
  pose proof (Z.div_mod num (Zpos ma) ltac:(lia)) as Hdm.
  pose proof (Z.mod_pos_bound num (Zpos ma) ltac:(lia)) as Hmod.
  unfold Z.div, Z.modulo in Hdm, Hmod.
  destruct (Z.div_eucl num (Zpos ma)) as [q r]. cbn [fst snd] in *.
  assert (2 ^ 52 <= q < 2 ^ 54) as Hq.
  { unfold num in Hdm. pow2. nia. }
  apply (binary_round_aux_normal q (ec + u - 53) _ num (Zpos ma)).
  - done.
  - lia.
  - lia.
  - lia.
  - replace (num - q * Zpos ma) with r by lia. apply new_location_matches. lia.
  - destruct (decide (u = 52)) as [->|Hne]; [|left; lia].
    right. specialize (Hone eq_refl). rewrite Hone in *. unfold num in *. pow2.
    assert (q = 2 * Zpos mc) as -> by lia.
    split; [lia|]. split; [lia|]. by rewrite Z.even_mul.
Qed.

(** Two such quotients cannot be ordered against the order of the divisors:
    the relative gap between [c / a] and [c / b], at least [2 ^ -31], is far
    wider than the rounding errors. *)
Lemma quotients_ordered C a b Pa Pb Xa Xb :
  0 < a < b -> b < 2 ^ 31 -> 0 < Xa -> 0 < Xb ->
  2 ^ 52 * Xa <= Pa -> 2 ^ 52 * Xb <= Pb ->
  2 * Z.abs (Pa * a - C) <= a * Xa ->
  2 * Z.abs (Pb * b - C) <= b * Xb ->
  Pb < Pa.
Proof.
  intros Hab Hb HXa HXb HPa HPb Ha Hbb.
  destruct (Z_lt_le_dec Pb Pa) as [|Hle]; [done|]. exfalso.
  change (2 ^ 31) with 2147483648 in *. pow2.
  assert (Pa * a <= Pb * a) by (apply Z.mul_le_mono_nonneg_r; lia).
  assert (Pb * a + Pb <= Pb * b) by nia.
  assert (4503599627370496 * (a * Xa) <= Pa * a) by nia.
  assert (4503599627370496 * (b * Xb) <= Pb * b) by nia.
  assert (Pb * b <= Pb * 2147483647) by (apply Z.mul_le_mono_nonneg_l; lia).
  lia.
Qed.

Lemma normal_product c :
  (0x1p-991 <=? c)%float = true -> (c <? infinity)%float = true ->
  exists mc ec,
    Prim2SF c = S754_finite false mc ec /\
    2 ^ 52 <= Zpos mc < 2 ^ 53 /\ -1043 <= ec <= 971.
Proof.
  intros Hlo Hhi. rewrite FloatAxioms.leb_spec in Hlo. rewrite FloatAxioms.ltb_spec in Hhi.
  pose proof (Prim2SF_valid c) as Hvalid.
  change (Prim2SF 0x1p-991) with (S754_finite false 4503599627370496 (-1043)) in Hlo.
  change (Prim2SF infinity) with (S754_infinity false) in Hhi.
  destruct (Prim2SF c) as [s|s| |s m e]; try discriminate Hlo.
  - destruct s; discriminate.
  - destruct s; [discriminate Hlo|].
    exists m, e. split; [done|].
    cbn [valid_binary] in Hvalid. unfold bounded, canonical_mantissa in Hvalid.
    apply andb_prop in Hvalid as [Hcanon Hmax].
    apply Z.eqb_eq in Hcanon. apply Z.leb_le in Hmax.
    unfold fexp, SpecFloat.emin, prec, emax in *.
    assert (-1043 <= e) as He.
    { unfold SFleb, SFcompare in Hlo. destruct (Z.compare_spec (-1043) e); [lia | lia | discriminate Hlo]. }
    pose proof (digits2_pos_bounds m) as Hd.
    assert (Zpos (digits2_pos m) = 53) as Hd53 by lia.
    rewrite Hd53 in Hd. pow2. change (2 ^ (53 - 1)) with 4503599627370496 in Hd. lia.
Qed.

Lemma Prim2SF_double_of_int a :
  0 < a < 2 ^ 31 ->
  exists ma u,
    Prim2SF (of_uint63 (Uint63.of_Z a)) = S754_finite false ma (- u) /\
    2 ^ 52 <= Zpos ma < 2 ^ 53 /\ 22 <= u <= 52 /\ Zpos ma = a * 2 ^ u.
Proof.
  intros Ha. rewrite of_uint63_spec, Uint63.of_Z_spec.
  change Uint63.wB with 9223372036854775808.
  rewrite Z.mod_small by (change (2 ^ 31) with 2147483648 in Ha; lia).
  by apply binary_normalize_int.
Qed.

Lemma SFltb_finite Mb Eb Ma Ea :
  Eb < Ea \/ (Eb = Ea /\ Zpos Mb < Zpos Ma) ->
  SFltb (S754_finite false Mb Eb) (S754_finite false Ma Ea) = true.
Proof.
  intros H. unfold SFltb, SFcompare.
  destruct (Z.compare_spec Eb Ea); [|done|lia].
  destruct H as [|[_ Hlt]]; [lia|].
  change (Pos.compare_cont Eq Mb Ma) with (Zpos Mb ?= Zpos Ma).
  by rewrite (proj2 (Z.compare_lt_iff _ _) Hlt).
Qed.

Lemma division_decreasing c a b :
  (0x1p-991 <=? c)%float = true -> (c <? infinity)%float = true ->
  0 < a < b -> b < 2 ^ 31 ->
  (c / of_uint63 (Uint63.of_Z b) <? c / of_uint63 (Uint63.of_Z a))%float = true.
Proof.
  intros Hlo Hhi Hab Hb.
  destruct (normal_product c Hlo Hhi) as (mc & ec & Hc & Hmc & Hec).
  destruct (Prim2SF_double_of_int a) as (ma & ua & HA & Hma & Hua & Hva); [lia|].
  destruct (Prim2SF_double_of_int b) as (mb & ub & HB & Hmb & Hub & Hvb); [lia|].
  rewrite FloatAxioms.ltb_spec, !FloatAxioms.div_spec, Hc, HA, HB. unfold SF64div.
  destruct (SFdiv_by_int mc ec ma ua) as (Ma & ka & -> & Hka & HMa & Ia); try done.
  { intros ->. rewrite Hva in Hma. pow2. lia. }
  destruct (SFdiv_by_int mc ec mb ub) as (Mb & kb & -> & Hkb & HMb & Ib); try done.
  { intros ->. rewrite Hvb in Hmb. pow2. lia. }
  set (Xa := 2 ^ (ka + ua)). set (Xb := 2 ^ (kb + ub)).
  assert (0 < Xa) by (apply Z.pow_pos_nonneg; lia).
  assert (0 < Xb) by (apply Z.pow_pos_nonneg; lia).
  assert (Zpos Mb * Xb < Zpos Ma * Xa) as Hlt.
  { apply (quotients_ordered (Zpos mc * 2 ^ 53) a b _ _ Xa Xb); try done.
    - pow2. nia.
    - pow2. nia.
    - rewrite Hva in Ia. unfold Xa. rewrite Z.pow_add_r by lia.
      replace (Zpos Ma * (2 ^ ka * 2 ^ ua) * a) with (Zpos Ma * 2 ^ ka * (a * 2 ^ ua)) by ring.
      replace (a * (2 ^ ka * 2 ^ ua)) with (a * 2 ^ ua * 2 ^ ka) by ring. done.
    - rewrite Hvb in Ib. unfold Xb. rewrite Z.pow_add_r by lia.
      replace (Zpos Mb * (2 ^ kb * 2 ^ ub) * b) with (Zpos Mb * 2 ^ kb * (b * 2 ^ ub)) by ring.
      replace (b * (2 ^ kb * 2 ^ ub)) with (b * 2 ^ ub * 2 ^ kb) by ring. done. }
  apply SFltb_finite.
  destruct (Z.lt_trichotomy (kb + ub) (ka + ua)) as [Hs|[Hs|Hs]].
  - left. lia.
  - right. split; [lia|]. unfold Xa, Xb in *. rewrite Hs in Hlt. nia.
  - exfalso.
    assert (2 * Xa <= Xb).
    { unfold Xa, Xb. rewrite <- (Z.pow_succ_r 2) by lia. apply Z.pow_le_mono_r; lia. }
    pow2. nia.
Qed.

(** C6, counterexample: with focal length and reference width both 2^600
    (positive doubles) the product overflows to infinity, and the estimates
    for widths 1 and 2 are both infinity; with focal length 2^-1074 and
    reference width 1 the estimates for widths 2 and 3 both round to 0. *)
Lemma estimateDistance_not_strict_counterexample :
  let big := FaceDetector_new 0x1p+600 0x1p+600 1 in
  let tiny := FaceDetector_new 0x1p-1074 1 1 in
  (0 <? focalLength big)%float = true /\ (0 <? realFaceWidth big)%float = true /\
  estimateDistance big 1 = infinity /\ estimateDistance big 2 = infinity /\
  (estimateDistance big 2 <? estimateDistance big 1)%float = false /\
  (0 <? focalLength tiny)%float = true /\ (0 <? realFaceWidth tiny)%float = true /\
  (estimateDistance tiny 3 <? estimateDistance tiny 2)%float = false.
Proof. repeat split; by vm_compute. Qed.

(** C6, as amended: when the product of reference width and focal length,
    as computed in double arithmetic, is finite and at least 2^-991 (so that
    no quotient by an [int] leaves the normal range), the estimate is strictly
    decreasing on positive pixel widths: for [0 < a < b] the estimate at [b]
    is less than the estimate at [a]. *)
Theorem estimateDistance_decreasing d a b :
  (0x1p-991 <=? realFaceWidth d * focalLength d)%float = true ->
  (realFaceWidth d * focalLength d <? infinity)%float = true ->
  0 < a < b -> b <= Int.INT_MAX ->
  (estimateDistance d b <? estimateDistance d a)%float = true.
Proof.
  intros Hlo Hhi Hab Hb. unfold estimateDistance, double_of_int.
  destruct (Z.ltb_spec a 0); [lia|]. destruct (Z.ltb_spec b 0); [lia|].
  apply division_decreasing; try done.
  unfold Int.INT_MAX in Hb. change (2 ^ 31) with 2147483648. lia.
Qed.

(** The program's calibration at widths 100 and 200. *)
Lemma estimateDistance_decreasing_witness :
  (estimateDistance (self fresh_world) 200 <? estimateDistance (self fresh_world) 100)%float
  = true.
Proof.
  assert ((0x1p-991 <=? realFaceWidth (self fresh_world) * focalLength (self fresh_world))%float
          = true) as H1 by reflexivity.
  assert ((realFaceWidth (self fresh_world) * focalLength (self fresh_world) <? infinity)%float
          = true) as H2 by reflexivity.
  assert (0 < 100 < 200) as H3 by lia.
  assert (200 <= Int.INT_MAX) as H4 by (unfold Int.INT_MAX; lia).
  exact (estimateDistance_decreasing (self fresh_world) 100 200 H1 H2 H3 H4).
Defined.

(** ** Unique file names (C8) *)




(** The two names, evaluated. *)
Example getUniqueFilename_twice :
  (getUniqueFilename 1730000000 fresh_world).1 = Done "faces/face_1730000000.jpg" /\
  (getUniqueFilename 1730000000
     (imwrite "faces/face_1730000000.jpg" face_a
        (getUniqueFilename 1730000000 fresh_world).2).2).1
  = Done "faces/face_1730000000_1.jpg".
Proof. split; by vm_compute. Qed.

(** ** The crops a cycle owes *)

Lemma unsaved_range_length fs sv n : forall s, (length (unsaved_range fs sv s n) <= n)%nat.
Proof.
  induction n as [|n IH]; intros s; [done|].
  unfold unsaved_range in *. cbn. rewrite length_app. specialize (IH (S s)).
  destruct (fs !! s); [destruct (sv !! s) as [[|]|]|]; cbn; lia.
Qed.

Lemma unsaved_range_sublist fs sv n : forall s,
  unsaved_range fs sv s n `sublist_of` drop s fs.
Proof.
  induction n as [|n IH]; intros s; [apply sublist_nil_l|].
  unfold unsaved_range in *. cbn. specialize (IH (S s)).
  destruct (fs !! s) as [r|] eqn:Hr.
  - rewrite (drop_S _ _ _ Hr).
    destruct (sv !! s) as [[|]|]; cbn; [by apply sublist_cons | by apply sublist_skip
                                        | by apply sublist_cons].
  - cbn. apply lookup_ge_None_1 in Hr. rewrite drop_ge in IH by lia.
    by rewrite drop_ge by lia.
Qed.

Lemma unsaved_range_saved fs sv n : forall s,
  (forall j, (s <= j < s + n)%nat -> sv !! j ≠ Some false) ->
  unsaved_range fs sv s n = [].
Proof.
  induction n as [|n IH]; intros s Hsaved; [done|].
  unfold unsaved_range in *. cbn. rewrite IH by (intros j Hj; apply Hsaved; lia).
  specialize (Hsaved s). destruct (fs !! s); [|done].
  destruct (sv !! s) as [[|]|]; try done. exfalso. apply Hsaved; [lia | done].
Qed.

Lemma unsaved_rects_replicate fs n : unsaved_rects fs (replicate n true) = [].
Proof.
  apply unsaved_range_saved. intros j _ Hj.
  apply lookup_replicate in Hj as [Hj _]. done.
Qed.

Lemma unsaved_range_shift r fs b sv n : forall s,
  unsaved_range (r :: fs) (b :: sv) (S s) n = unsaved_range fs sv s n.
Proof.
  induction n as [|n IH]; intros s; [done|].
  unfold unsaved_range in *. cbn [seq fmap list_fmap concat].
  f_equal. apply (IH (S s)).
Qed.

Lemma unsaved_range_no_flags fs n : forall s, unsaved_range fs [] s n = [].
Proof.
  induction n as [|n IH]; intros s; [done|].
  unfold unsaved_range in *. cbn [seq fmap list_fmap concat]. rewrite (IH (S s)).
  by destruct (fs !! s).
Qed.

Lemma unsaved_rects_crops_due fs sv : unsaved_rects fs sv = crops_due fs sv.
Proof.
  revert sv. induction fs as [|r fs IH]; intros sv; [done|].
  destruct sv as [|b sv].
  - apply unsaved_range_no_flags.
  - unfold unsaved_rects. cbn [length].
    rewrite (unsaved_range_succ _ _ _ _ r b) by done.
    rewrite unsaved_range_shift. cbn [crops_due]. f_equal. apply IH.
Qed.

(** ** One flag per detection (C9) *)

Lemma annotateFrame_in_range env w :
  flags_match (self w) ->
  (annotateFrame env w).1 = Done tt \/ (annotateFrame env w).1 = Undefined EndlessLoop.
Proof.
  intros Hmatch. rewrite annotateFrame_unfold.
  pose proof (annotate_loop_outcome env (length (faces (self w))) 0 w) as Hloop.
  unfold flags_match in Hmatch.
  destruct (for_each _ _ w) as [[[]|e|f] w1]; cbn in *.
  - by left.
  - destruct Hloop as [?|?]; [lia | lia | done | done].
  - destruct Hloop as [?|Hf]; [lia | lia | done | right; done].
Qed.

Lemma processFrame_flags_match env w :
  flags_match (self w) ->
  flags_match (self (processFrame env w).2) /\
  (processFrame env w).1 ≠ Undefined OutOfRange.
Proof.
  intros Hmatch. destruct (empty (captured env)) eqn:Hempty.
  { by rewrite processFrame_empty. }
  destruct (decide (Int.add (frameSkipCount (self w)) 1 = 0)) as [Hz|Hnz].
  { by rewrite processFrame_zero_divisor. }
  destruct (decide (due (self w))) as [Hdue|Hskip]; [|by rewrite processFrame_skip].
  rewrite processFrame_full by done. unfold bind.
  pose proof (prepared_flags_match env (self w)) as Hprep.
  destruct (annotateFrame_stable env (on_self (prepared env) w)) as [(Hfs & Hlen & _) _].
  pose proof (annotateFrame_in_range env (on_self (prepared env) w) Hprep) as Hout.
  destruct (annotateFrame env (on_self (prepared env) w)) as [[[]|e|f] w1]; cbn in *.
  - split; [|done]. unfold flags_match in *. cbn in *. congruence.
  - split; [|done]. unfold flags_match in *. cbn in *. congruence.
  - split; [unfold flags_match in *; cbn in *; congruence|].
    destruct Hout as [?|[= ->]]; done.
Qed.

Lemma run_flags_match envs : forall w,
  flags_match (self w) ->
  flags_match (self (run envs w).2) /\ (run envs w).1 ≠ Undefined OutOfRange.
Proof.
  induction envs as [|env envs IH]; intros w Hmatch; [done|].
  cbn [run]. unfold bind.
  destruct (processFrame_flags_match env w Hmatch) as [Hnext Hout].
  destruct (processFrame env w) as [[[]|e|f] w1]; cbn in *; [by apply IH | done | done].
Qed.

(** C9: from construction on, whatever the speed-up factor and however the
    calls end (a skipped frame, a full cycle, a failed capture), the saved
    flags are as many as the detections; so no call ever reads or sets a flag
    outside the vector. *)
Theorem flags_follow_detections focal real speedUpFactor files log envs :
  let w0 := mkWorld (FaceDetector_new focal real speedUpFactor) files log in
  length (facesSaved (self (run envs w0).2)) = length (faces (self (run envs w0).2)) /\
  (run envs w0).1 ≠ Undefined OutOfRange /\
  (forall env, (processFrame env (run envs w0).2).1 ≠ Undefined OutOfRange).
Proof.
  intros w0.
  destruct (run_flags_match envs w0) as [Hmatch Hout]; [done|].
  split_and!; [done | done |].
  intros env. by apply processFrame_flags_match.
Qed.

(** ** Every flag set after annotation (C10) *)

(** With every flag set, the loop completes without looking for a name. *)
Lemma annotate_loop_saved env n : forall s w,
  (s + n <= length (faces (self w)))%nat ->
  (forall j, (s <= j < s + n)%nat -> facesSaved (self w) !! j = Some true) ->
  (for_each (annotateFace env) (seq s n) w).1 = Done tt.
Proof.
  induction n as [|n IH]; intros s w Hfs Hsaved; [done|].
  cbn [seq for_each]. unfold bind.
  pose proof (annotateFace_cases env s w) as Hcase.
  destruct (lookup_lt_is_Some_2 (faces (self w)) s) as [r Hr]; [lia|].
  rewrite Hr, (Hsaved s) in Hcase by lia. rewrite Hcase.
  apply IH; cbn; [lia|]. intros j Hj. apply Hsaved. lia.
Qed.

(** A cycle that finds as many faces as there are flags, all set, writes no
    image and leaves the disk alone, whatever path it takes. *)
Lemma processFrame_all_saved env w :
  facesSaved (self w) = replicate (length (detected env)) true ->
  imwrites (processFrame env w).2 = imwrites w /\ disk (processFrame env w).2 = disk w.
Proof.
  intros Hsaved. destruct (empty (captured env)) eqn:Hempty.
  { by rewrite processFrame_empty. }
  destruct (decide (Int.add (frameSkipCount (self w)) 1 = 0)) as [Hz|Hnz].
  { by rewrite processFrame_zero_divisor. }
  destruct (decide (due (self w))) as [Hdue|Hskip]; [|by rewrite processFrame_skip].
  rewrite processFrame_full by done. unfold bind.
  set (v := on_self (prepared env) w).
  assert (facesSaved (self v) = replicate (length (detected env)) true) as Hflags.
  { cbn. rewrite syncSavedFlags_same; [done|]. by rewrite Hsaved, length_replicate. }
  assert ((annotateFrame env v).1 = Done tt) as Hdone.
  { rewrite annotateFrame_unfold.
    pose proof (annotate_loop_saved env (length (faces (self v))) 0 v) as Hloop.
    destruct (for_each _ _ v) as [[[]|e|f] v1]; cbn in *; try done;
      discriminate Hloop; try lia; intros j Hj; rewrite Hflags;
      apply lookup_replicate_2; lia. }
  destruct (annotateFrame env v) as [o w1] eqn:Hrun. cbn in Hdone. subst o.
  apply annotateFrame_done in Hrun; [|apply prepared_flags_match].
  destruct Hrun as (_ & new & Hlog & Hrects & _ & _ & _ & Hnil & _).
  rewrite Hflags in Hrects. cbn in Hrects. rewrite unsaved_rects_replicate in Hrects.
  apply fmap_nil_inv in Hrects. subst new. rewrite app_nil_r in Hlog.
  cbn in *. split; [done | by apply Hnil].
Qed.

(** C10: when [annotateFrame] is entered with a flag for every detection, on
    a disk with room for the crops, it returns with every flag set; it writes
    one image for each slot whose flag was not set and none for the others
    (so at most one per slot, in slot order); and any later cycle with the
    same number of detections, reached with the flags as they are now,
    writes no image and creates no file. *)
Theorem all_saved_after_annotation env w :
  flags_match (self w) ->
  Z.of_nat (size (disk w)) + 2 * Z.of_nat (length (faces (self w))) < Int.INT_MAX ->
  exists w' new,
    annotateFrame env w = (Done tt, w') /\
    facesSaved (self w') = replicate (length (faces (self w))) true /\
    Forall (fun saved => saved = true) (facesSaved (self w')) /\
    imwrites w' = imwrites w ++ new /\
    new.*2 = crops_due (faces (self w)) (facesSaved (self w)) /\
    new.*2 `sublist_of` faces (self w) /\
    (length new <= length (faces (self w)))%nat /\
    (forall env2 v,
        facesSaved (self v) = facesSaved (self w') ->
        length (detected env2) = length (faces (self w)) ->
        imwrites (processFrame env2 v).2 = imwrites v /\
        disk (processFrame env2 v).2 = disk v).
Proof.
  intros Hmatch Hroom.
  pose proof (annotateFrame_total env w Hmatch Hroom) as Htotal.
  destruct (annotateFrame env w) as [o w'] eqn:Hrun. cbn in Htotal. subst o.
  apply annotateFrame_done in Hrun; [|done].
  destruct Hrun as (Hself & new & Hlog & Hrects & _).
  assert (facesSaved (self w') = replicate (length (faces (self w))) true) as Hall
    by (by rewrite Hself).
  exists w', new. split_and!; try done.
  - rewrite Hall. by apply Forall_replicate.
  - rewrite Hrects. apply unsaved_rects_crops_due.
  - rewrite Hrects. apply (unsaved_range_sublist _ _ _ 0%nat).
  - rewrite <- (length_fmap snd), Hrects. apply unsaved_range_length.
  - intros env2 v Hv Hcount. apply processFrame_all_saved.
    by rewrite Hv, Hall, Hcount.
Qed.

(** Annotation of the three-face cycle that follows the two-face one. *)
Lemma all_saved_after_annotation_witness :
  exists w' (new : list (string * Rect)),
    annotateFrame env_three (on_self (prepared env_three) world_two) = (Done tt, w') /\
    facesSaved (self w') = [true; true; true] /\
    new.*2 = [face_c].
Proof.
  assert (flags_match (self (on_self (prepared env_three) world_two))) as H1
    by reflexivity.
  assert (Z.of_nat (size (disk (on_self (prepared env_three) world_two)))
          + 2 * Z.of_nat (length (faces (self (on_self (prepared env_three) world_two))))
          < Int.INT_MAX) as H2 by (vm_compute; reflexivity).
  destruct (all_saved_after_annotation env_three _ H1 H2)
    as (w' & new & Hrun & Hall & _ & _ & Hrects & _).
  exists w', new. split_and!; [exact Hrun | exact Hall | exact Hrects].
Defined.

(** An empty capture after a successful cycle. *)
Example capture_failure_dark :
  processFrame env_dark world_two
  = (Throw CaptureFailed, on_self (set_frame EmptyMat) world_two).
Proof. reflexivity. Qed.

Lemma drawings_range_imap_aux (g : nat -> Rect -> list drawing) (l : list Rect) :
  (fun i => match l !! i with Some r => g i r | None => [] end) <$> seq 0 (length l)
  = imap g l.
Proof.
  revert g. induction l as [|r l IH]; intros g; [done|].
  cbn [length seq fmap list_fmap]. rewrite imap_cons. f_equal.
  rewrite <- fmap_S_seq, <- list_fmap_compose. rewrite <- (IH (g ∘ S)).
  by apply list_fmap_ext.
Qed.

Lemma drawings_range_imap d :
  drawings_range d 0 (length (faces d)) = concat (imap (slot_drawings d) (faces d)).
Proof. unfold drawings_range. by rewrite drawings_range_imap_aux. Qed.

(** The drawings of a full cycle, spelled out: box and label for each face
    in turn, then the summary line. *)
Lemma full_cycle_drawings env d :
  drawings_range (prepared env d) 0 (length (detected env))
    ++ [summary (length (detected env))]
  = concat (imap (fun i r =>
                    [Rectangle r;
                     PutText (("Face " +:+ to_string (Z.of_nat i + 1))
                                +:+ (" Dist: "
                                       +:+ fixed2 (estimateDistance d (width r))
                                       +:+ " cm"))
                             (tl r)])
                 (detected env))
    ++ [PutText (faceMessage (length (detected env))) (10, 40)].
Proof.
  unfold summary. f_equal. apply (drawings_range_imap (prepared env d)).
Qed.

(** ** Saved slots are drawn but not written again (C4) *)

Lemma drawings_range_elem d n i r x :
  (i < n)%nat -> faces d !! i = Some r ->
  x ∈ slot_drawings d i r -> x ∈ drawings_range d 0 n.
Proof.
  intros Hi Hr Hx. unfold drawings_range.
  apply list_elem_of_In, in_concat. exists (slot_drawings d i r).
  split; [|by apply list_elem_of_In].
  apply list_elem_of_In, list_elem_of_fmap. exists i.
  split; [by rewrite Hr | apply elem_of_seq; lia].
Qed.

(** C4: a full cycle that finds as many faces as there are saved flags (the
    count of the cycle before) completes, on a disk with room for its crops,
    and writes exactly the crops due: nothing for a slot whose flag is set,
    one image, under a name that did not exist, for a slot whose flag is not.
    Every slot, saved or not, gets its box and its distance label on the
    frame: the text "Face <i+1> Dist: <d> cm", where <d> is the estimate for
    the width of the box printed with two decimals, at the top-left corner
    of the box.  The frame is the capture with, for each slot in turn, box and
    label, and then the summary line; every flag is set afterwards. *)
Theorem saved_slots_not_rewritten env w :
  empty (captured env) = false ->
  Int.add (frameSkipCount (self w)) 1 ≠ 0 ->
  due (self w) ->
  Z.of_nat (size (disk w)) + 2 * Z.of_nat (length (detected env)) < Int.INT_MAX ->
  length (detected env) = length (facesSaved (self w)) ->
  let label (i : nat) (r : Rect) :=
    ("Face " +:+ to_string (Z.of_nat i + 1))
      +:+ (" Dist: " +:+ fixed2 (estimateDistance (self w) (width r)) +:+ " cm") in
  exists w' new,
    processFrame env w = (Done tt, w') /\
    imwrites w' = imwrites w ++ new /\
    new.*2 = crops_due (detected env) (facesSaved (self w)) /\
    NoDup new.*1 /\
    (forall f, f ∈ new.*1 -> (f ∉ disk w) /\ f ∈ disk w') /\
    (forall i r, detected env !! i = Some r ->
       Rectangle r ∈ overlay_of (frame (self w')) /\
       PutText (label i r) (tl r) ∈ overlay_of (frame (self w')) /\
       facesSaved (self w') !! i = Some true) /\
    overlay_of (frame (self w'))
    = overlay_of (captured env)
      ++ concat (imap (fun i r => [Rectangle r; PutText (label i r) (tl r)])
                      (detected env))
      ++ [PutText (faceMessage (length (detected env))) (10, 40)].
Proof.
  intros Hempty Hnz Hdue Hroom Hcount label.
  destruct (processFrame_full_done env w Hempty Hnz Hdue Hroom)
    as (w' & new & Hrun & Hself & Hlog & Hrects & Hdup & Hfresh & _).
  exists w', new. split_and!; try done.
  - rewrite Hrects, syncSavedFlags_same by done. apply unsaved_rects_crops_due.
  - intros i r Hr. pose proof (lookup_lt_Some _ _ _ Hr) as Hi.
    set (d := prepared env (self w)) in *.
    assert (forall x, x ∈ slot_drawings d i r -> x ∈ overlay_of (frame (self w'))) as Hdrawn.
    { intros x Hx. rewrite Hself. cbn.
      destruct (captured env) as [|id ov]; [done|]. rewrite draws_picture. cbn.
      apply elem_of_app. right. apply elem_of_app. left.
      by apply (drawings_range_elem d _ i r). }
    split_and!.
    + apply Hdrawn. unfold slot_drawings. set_solver.
    + change (label i r) with (labelText (self w) i r).
      rewrite <- (labelText_ext (self w) d) by done.
      apply Hdrawn. unfold slot_drawings. set_solver.
    + rewrite Hself. cbn. by apply lookup_replicate_2.
  - rewrite Hself. cbn [frame set_frame set_videoWriter].
    destruct (captured env) as [|id ov] eqn:Hcap; [discriminate Hempty|].
    rewrite draws_picture. cbn [overlay_of]. f_equal.
    apply (full_cycle_drawings env (self w)).
Qed.

(** A second cycle with the same two faces: nothing is written, both faces
    are drawn and labelled. *)
Lemma saved_slots_not_rewritten_witness :
  exists w' (new : list (string * Rect)),
    processFrame env_two world_two = (Done tt, w') /\
    imwrites w' = imwrites world_two ++ new /\
    new.*2 = [] /\
    Rectangle face_b ∈ overlay_of (frame (self w')) /\
    PutText "Face 2 Dist: 56.00 cm" (200, 20) ∈ overlay_of (frame (self w')) /\
    overlay_of (frame (self w'))
    = [Rectangle face_a; PutText "Face 1 Dist: 112.00 cm" (10, 20);
       Rectangle face_b; PutText "Face 2 Dist: 56.00 cm" (200, 20);
       PutText "2 faces found" (10, 40)].
Proof.
  assert (empty (captured env_two) = false) as H1 by reflexivity.
  assert (Int.add (frameSkipCount (self world_two)) 1 ≠ 0) as H2
    by (vm_compute; discriminate).
  assert (due (self world_two)) as H3 by reflexivity.
  assert (Z.of_nat (size (disk world_two)) + 2 * Z.of_nat (length (detected env_two))
          < Int.INT_MAX) as H4 by (vm_compute; reflexivity).
  assert (length (detected env_two) = length (facesSaved (self world_two))) as H5
    by reflexivity.
  destruct (saved_slots_not_rewritten env_two world_two H1 H2 H3 H4 H5)
    as (w' & new & Hrun & Hlog & Hrects & _ & _ & Hslots & Hframe).
  destruct (Hslots 1%nat face_b eq_refl) as (Hbox & Hlabel & _).
  exists w', new. split_and!; [exact Hrun | exact Hlog | exact Hrects | exact Hbox | |].
  - replace "Face 2 Dist: 56.00 cm"
      with (("Face " +:+ to_string (Z.of_nat 1 + 1))
              +:+ (" Dist: "
                     +:+ fixed2 (estimateDistance (self world_two) (width face_b))
                     +:+ " cm"))
      by (vm_compute; reflexivity).
    exact Hlabel.
  - rewrite Hframe. vm_compute. reflexivity.
Defined.

(** ** One frame in [f] (C3) *)

Lemma total_detected_app l1 l2 :
  total_detected (l1 ++ l2) = (total_detected l1 + total_detected l2)%nat.
Proof. unfold total_detected. by rewrite fmap_app, concat_app, length_app. Qed.

Lemma total_detected_cons env l :
  total_detected (env :: l) = (length (detected env) + total_detected l)%nat.
Proof. unfold total_detected. cbn. by rewrite length_app. Qed.

Lemma run_app l1 : forall l2 w,
  run (l1 ++ l2) w = (run l1 ;; run l2) w.
Proof.
  induction l1 as [|env l1 IH]; intros l2 w; [done|].
  cbn [app run]. unfold bind. destruct (processFrame env w) as [[[]|e|f] w1]; [|done|done].
  rewrite IH. done.
Qed.

Lemma run_snoc l env w w1 :
  run l w = (Done tt, w1) ->
  (run (l ++ [env]) w).1 = (processFrame env w1).1 /\
  (run (l ++ [env]) w).2 = (processFrame env w1).2.
Proof.
  intros Hrun. rewrite run_app. unfold bind. rewrite Hrun. cbn [run].
  unfold bind. by destruct (processFrame env w1) as [[[]|e|f] w2].
Qed.

Section Counter.
Variable f : Z.
Hypothesis f_range : 1 <= f <= Int.INT_MAX.

Lemma skip_of_factor : Int.sub f 1 = f - 1.
Proof. apply wrap_id. unfold Int.in_range, Int.INT_MIN, Int.INT_MAX in *. lia. Qed.

Lemma divisor_of_factor : Int.add (f - 1) 1 = f.
Proof.
  unfold Int.add. replace (f - 1 + 1) with f by lia.
  apply wrap_id. unfold Int.in_range, Int.INT_MIN, Int.INT_MAX in *. lia.
Qed.

Lemma counter_advance c : 0 <= c < f -> Int.add c 1 = c + 1.
Proof.
  intros Hc. apply wrap_id. unfold Int.in_range, Int.INT_MIN, Int.INT_MAX in *. lia.
Qed.

Lemma counter_due c : 0 <= c < f -> (Z.rem (c + 1) f = 0 <-> c + 1 = f).
Proof.
  intros Hc. destruct (decide (c + 1 = f)) as [->|Hne].
  - split; [done|]. intros _. apply Z.rem_same. lia.
  - rewrite Z.rem_small by lia. lia.
Qed.

(** A run of non-empty captures on a disk with room for every crop: it
    completes, the counter is the number of captures so far modulo [f],
    and one frame in [f] has been encoded. *)
Lemma run_counts envs : forall w,
  frameSkipCount (self w) = f - 1 ->
  0 <= frameCounter (self w) < f ->
  Forall (fun e => empty (captured e) = false) envs ->
  Z.of_nat (size (disk w)) + 2 * Z.of_nat (total_detected envs) < Int.INT_MAX ->
  exists w',
    run envs w = (Done tt, w') /\
    frameSkipCount (self w') = f - 1 /\
    frameCounter (self w') = (frameCounter (self w) + Z.of_nat (length envs)) mod f /\
    Z.of_nat (written w') =
      Z.of_nat (written w) + (frameCounter (self w) + Z.of_nat (length envs)) / f /\
    (size (disk w') <= size (disk w) + 2 * total_detected envs)%nat.
Proof.
  induction envs as [|env envs IH]; intros w Hskip Hc Hlit Hroom.
  - exists w. cbn. rewrite Z.add_0_r, Z.mod_small, Z.div_small by lia.
    split_and!; try done; lia.
  - apply Forall_cons in Hlit as [Hempty Hlit].
    rewrite total_detected_cons in Hroom.
    assert (Int.add (frameSkipCount (self w)) 1 ≠ 0) as Hnz
      by (rewrite Hskip, divisor_of_factor; lia).
    cbn [run]. unfold bind.
    destruct (decide (frameCounter (self w) + 1 = f)) as [Hfull|Hnot].
    + assert (due (self w)) as Hdue.
      { unfold due. rewrite Hskip, divisor_of_factor, counter_advance by done.
        by apply counter_due. }
      destruct (processFrame_full_done env w Hempty Hnz Hdue)
        as (w1 & new & Hstep & Hself & _ & Hrects & _ & _ & _ & _ & Hsize); [lia|].
      assert (length new <= length (detected env))%nat as Hnew.
      { rewrite <- (length_fmap snd), Hrects. apply unsaved_range_length. }
      rewrite Hstep.
      destruct (IH w1) as (w' & Hrun & Hskip' & Hc' & Hwritten & Hsize').
      { by rewrite Hself. } { rewrite Hself. cbn. lia. } { done. } { lia. }
      exists w'. split; [done|]. split; [done|].
      assert (frameCounter (self w1) = 0) as Hzero by (by rewrite Hself).
      assert (written w1 = S (written w)) as Hone.
      { unfold written. rewrite Hself. cbn. rewrite length_app. cbn. lia. }
      rewrite Hzero in Hc', Hwritten. rewrite Hone in Hwritten.
      replace (frameCounter (self w) + Z.of_nat (length (env :: envs)))
        with (Z.of_nat (length envs) + 1 * f) by (cbn [length]; lia).
      rewrite Z.mod_add, Z.div_add by lia.
      rewrite total_detected_cons. rewrite Z.add_0_l in Hc', Hwritten.
      split_and!; [done | lia | lia].
    + assert (¬ due (self w)) as Hskipped.
      { unfold due. rewrite Hskip, divisor_of_factor, counter_advance by done.
        by rewrite counter_due. }
      rewrite processFrame_skip by done.
      destruct (IH (on_self (skipped env) w)) as (w' & Hrun & Hskip' & Hc' & Hwritten & Hsize').
      { done. } { cbn. rewrite counter_advance by done. lia. } { done. } { cbn. lia. }
      exists w'. split; [done|]. split; [done|].
      cbn in Hc', Hwritten, Hsize'. rewrite counter_advance in Hc', Hwritten by done.
      replace (frameCounter (self w) + Z.of_nat (length (env :: envs)))
        with (frameCounter (self w) + 1 + Z.of_nat (length envs)) by (cbn [length]; lia).
      rewrite total_detected_cons. split_and!; [done | done | lia].
Qed.

End Counter.

(** C3: with speed-up factor [f >= 1] (skip count [f - 1]) and the counter
    at 0 after construction, over any run of non-empty captures (on a disk
    with room for the crops): the run completes; of any [f] consecutive
    captures exactly one is encoded into the video; the [k]-th capture is
    skipped when [f] does not divide [k] (the call returns with the counter
    advanced by one, not reset, and only the held frame replaced, by the
    capture as it was read) and is fully processed when [f] divides [k]: the
    detections are those found in this capture, the frame is the capture with
    box and distance label drawn for each of them in turn and the summary
    line last, this frame is what is encoded into the video, and the counter
    is back at 0. *)
Theorem one_frame_in_f f focal real files log pre window :
  1 <= f <= Int.INT_MAX ->
  Z.of_nat (length window) = f ->
  Forall (fun e => empty (captured e) = false) (pre ++ window) ->
  Z.of_nat (size files) + 2 * Z.of_nat (total_detected (pre ++ window)) < Int.INT_MAX ->
  let w0 := mkWorld (FaceDetector_new focal real f) files log in
  let after l := (run l w0).2 in
  (run (pre ++ window) w0).1 = Done tt /\
  frameSkipCount (self w0) = f - 1 /\
  written (after (pre ++ window)) = S (written (after pre)) /\
  (forall j env, window !! j = Some env ->
     let before := after (pre ++ take j window) in
     let next := after (pre ++ take (S j) window) in
     let k := Z.of_nat (length pre + j + 1) in
     (k mod f ≠ 0 ->
      next = on_self (skipped env) before /\
      frameCounter (self next) = frameCounter (self before) + 1 /\
      written next = written before) /\
     (k mod f = 0 ->
      let label (i : nat) (r : Rect) :=
        ("Face " +:+ to_string (Z.of_nat i + 1))
          +:+ (" Dist: " +:+ fixed2 (estimateDistance (self before) (width r)) +:+ " cm") in
      frameCounter (self next) = 0 /\
      faces (self next) = detected env /\
      frame (self next)
      = draws (concat (imap (fun i r => [Rectangle r; PutText (label i r) (tl r)])
                            (detected env))
                 ++ [PutText (faceMessage (length (detected env))) (10, 40)])
              (captured env) /\
      videoWriter (self next) = videoWriter (self before) ++ [frame (self next)])).
Proof.
  intros Hf Hlen Hlit Hroom w0 after.
  assert (frameSkipCount (self w0) = f - 1) as Hskip0 by (cbn; by apply skip_of_factor).
  assert (0 <= frameCounter (self w0) < f) as Hc0 by (cbn; lia).
  split_and!; [| done | |].
  - destruct (run_counts f Hf (pre ++ window) w0 Hskip0 Hc0 Hlit Hroom) as (w' & -> & _).
    done.
  - destruct (run_counts f Hf (pre ++ window) w0 Hskip0 Hc0 Hlit Hroom)
      as (w2 & Hrun2 & _ & _ & Hw2 & _).
    apply Forall_app in Hlit as [Hlit1 _]. rewrite total_detected_app in Hroom.
    destruct (run_counts f Hf pre w0 Hskip0 Hc0 Hlit1) as (w1 & Hrun1 & _ & _ & Hw1 & _);
      [cbn in *; lia|].
    unfold after. rewrite Hrun1, Hrun2. cbn [snd].
    change (frameCounter (self w0)) with 0 in Hw1, Hw2.
    change (written w0) with 0%nat in Hw1, Hw2.
    rewrite length_app, !Z.add_0_l in Hw2. rewrite !Z.add_0_l in Hw1.
    replace (Z.of_nat (length pre + length window)) with (Z.of_nat (length pre) + 1 * f)
      in Hw2 by lia.
    rewrite Z.div_add in Hw2 by lia. lia.
  - intros j env Henv before next k.
    pose proof (lookup_lt_Some _ _ _ Henv) as Hj.
    pose proof (take_drop_middle _ _ _ Henv) as Hsplit.
    set (P := pre ++ take j window) in *.
    assert (pre ++ take (S j) window = P ++ [env]) as HP
      by (unfold P; rewrite (take_S_r _ _ _ Henv); apply app_assoc).
    assert (pre ++ window = P ++ env :: drop (S j) window) as Hwhole
      by (unfold P; rewrite <- app_assoc; by rewrite Hsplit).
    rewrite Hwhole in Hlit, Hroom.
    apply Forall_app in Hlit as [HlitP Hlit']. apply Forall_cons in Hlit' as [Hempty _].
    rewrite total_detected_app, total_detected_cons in Hroom.
    destruct (run_counts f Hf P w0 Hskip0 Hc0 HlitP)
      as (wP & HrunP & HskipP & HcP & _ & HsizeP); [cbn in *; lia|].
    destruct (run_snoc P env w0 wP HrunP) as [_ Hnext].
    assert (before = wP) as Hbefore by (unfold before, after; by rewrite HrunP).
    assert (next = (processFrame env wP).2) as Hnext'
      by (unfold next, after; by rewrite HP).
    clearbody before next. subst before next.
    assert (Z.of_nat (length P) + 1 = k) as HlenP.
    { unfold P, k. rewrite length_app, length_take. lia. }
    change (frameCounter (self w0)) with 0 in HcP. rewrite Z.add_0_l in HcP.
    pose proof (Z.mod_pos_bound (Z.of_nat (length P)) f ltac:(lia)) as Hbound.
    assert (k mod f = (frameCounter (self wP) + 1) mod f) as Hk.
    { rewrite <- HlenP, HcP. by rewrite Z.add_mod_idemp_l by lia. }
    assert (Int.add (frameSkipCount (self wP)) 1 ≠ 0) as Hnz
      by (rewrite HskipP, (divisor_of_factor f Hf); lia).
    split.
    + intros Hkf.
      assert (¬ due (self wP)) as Hskipped.
      { unfold due. rewrite HskipP, (divisor_of_factor f Hf), (counter_advance f Hf) by lia.
        rewrite (counter_due f Hf) by lia. intros Heq. apply Hkf.
        rewrite Hk, Heq. apply Z.mod_same. lia. }
      rewrite processFrame_skip by done. cbn.
      split_and!; [done | apply (counter_advance f Hf); lia | done].
    + intros Hkf.
      assert (due (self wP)) as Hdue.
      { unfold due. rewrite HskipP, (divisor_of_factor f Hf), (counter_advance f Hf) by lia.
        apply (counter_due f Hf); [lia|].
        rewrite Hk in Hkf.
        destruct (decide (frameCounter (self wP) + 1 = f)) as [|Hne]; [done|].
        rewrite Z.mod_small in Hkf by lia. lia. }
      destruct (processFrame_full_done env wP Hempty Hnz Hdue)
        as (w1 & new & Hstep & Hself & _); [cbn in *; lia|].
      rewrite Hstep. cbn [snd]. split_and!.
      * by rewrite Hself.
      * by rewrite Hself.
      * rewrite Hself. cbn [frame set_frame set_videoWriter].
        f_equal. apply (full_cycle_drawings env (self wP)).
      * rewrite Hself at 1. done.
Qed.

(** Speed-up factor 2 and a window of two captures: the first is held as
    it was read, the second is annotated and is the one frame in the video. *)
Lemma one_frame_in_f_witness :
  let w0 := mkWorld (FaceDetector_new 800 14 2) ∅ [] in
  (run [env_two; env_three] w0).1 = Done tt /\
  written (run [env_two; env_three] w0).2 = 1%nat /\
  frame (self (run [env_two] w0).2) = Picture 1 [] /\
  videoWriter (self (run [env_two] w0).2) = [] /\
  faces (self (run [env_two; env_three] w0).2) = [face_a; face_b; face_c] /\
  frame (self (run [env_two; env_three] w0).2)
  = Picture 2 [Rectangle face_a; PutText "Face 1 Dist: 112.00 cm" (10, 20);
               Rectangle face_b; PutText "Face 2 Dist: 56.00 cm" (200, 20);
               Rectangle face_c; PutText "Face 3 Dist: 224.00 cm" (400, 60);
               PutText "3 faces found" (10, 40)] /\
  videoWriter (self (run [env_two; env_three] w0).2)
  = [frame (self (run [env_two; env_three] w0).2)].
Proof.
  intros w0.
  assert (1 <= 2 <= Int.INT_MAX) as H1 by (unfold Int.INT_MAX; lia).
  assert (Z.of_nat (length [env_two; env_three]) = 2) as H2 by reflexivity.
  assert (Forall (fun e => empty (captured e) = false)
                 ([] ++ [env_two; env_three])) as H3
    by (repeat constructor).
  assert (Z.of_nat (size (∅ : gset string))
          + 2 * Z.of_nat (total_detected ([] ++ [env_two; env_three]))
          < Int.INT_MAX) as H4 by (vm_compute; reflexivity).
  destruct (one_frame_in_f 2 800 14 ∅ [] [] [env_two; env_three] H1 H2 H3 H4)
    as (Hdone & _ & Hone & Hturns).
  destruct (Hturns 0%nat env_two eq_refl) as [Hskip _].
  destruct (Hskip ltac:(vm_compute; discriminate)) as (Hheld & _ & Hnone).
  destruct (Hturns 1%nat env_three eq_refl) as [_ Hfull].
  destruct (Hfull eq_refl) as (_ & Hfaces & Hframe & Hvideo).
  split_and!.
  - exact Hdone.
  - exact Hone.
  - exact (f_equal (fun w => frame (self w)) Hheld).
  - apply length_zero_iff_nil. exact Hnone.
  - exact Hfaces.
  - etransitivity; [exact Hframe|]. vm_compute. reflexivity.
  - exact Hvideo.
Defined.

(** * Further properties *)

(** ** Nothing is removed, nothing is overwritten *)

Lemma grown_refl w : grown w w.
Proof. by repeat split. Qed.

Lemma grown_trans w1 w2 w3 : grown w1 w2 -> grown w2 w3 -> grown w1 w3.
Proof.
  intros (H1 & H2 & H3) (H4 & H5 & H6).
  repeat split; [set_solver | by etrans | by etrans].
Qed.

Lemma annotateFace_keeps env i before w :
  let w' := (annotateFace env i w).2 in
  grown w w' /\ (tidy before w -> tidy before w').
Proof.
  pose proof (annotateFace_cases env i w) as Hcase. cbn zeta.
  destruct (faces (self w) !! i) as [r|]; [|rewrite Hcase; by split; [apply grown_refl|]].
  destruct (facesSaved (self w) !! i) as [[|]|].
  - rewrite Hcase. split; [by repeat split|done].
  - cbn zeta in Hcase.
    destruct (unique_name (create_directory "faces" (disk w)) (clock env i))
      as [f|] eqn:Hname; rewrite Hcase; cbn.
    + apply unique_name_fresh in Hname. unfold create_directory in *. split.
      * repeat split; cbn; [set_solver | by apply prefix_app_r | done].
      * intros (Hdup & Hnames & Hsub). unfold tidy. cbn. rewrite fmap_app. cbn.
        split_and!.
        -- apply NoDup_app. split; [done|]. split; [|apply NoDup_singleton].
           intros f' Hf' Hin. apply list_elem_of_singleton in Hin as ->.
           apply Hnames in Hf' as [Hf' _]. set_solver.
        -- intros f' Hf'. apply elem_of_app in Hf' as [Hf'|Hf'].
           ++ apply Hnames in Hf' as [Hin Hout]. split; [set_solver | done].
           ++ apply list_elem_of_singleton in Hf' as ->. split; set_solver.
        -- set_solver.
    + unfold create_directory. split.
      * repeat split; cbn; [set_solver | done | done].
      * intros (Hdup & Hnames & Hsub). unfold tidy. cbn. split_and!; [done | | set_solver].
        intros f' Hf'. apply Hnames in Hf' as [Hin Hout]. split; [set_solver | done].
  - rewrite Hcase. split; [by repeat split|done].
Qed.

Lemma for_each_keeps env before l : forall w,
  let w' := (for_each (annotateFace env) l w).2 in
  grown w w' /\ (tidy before w -> tidy before w').
Proof.
  induction l as [|i l IH]; intros w; [split; [apply grown_refl|done]|].
  cbn [for_each]. unfold bind. cbn zeta.
  destruct (annotateFace_keeps env i before w) as [Hg Ht].
  destruct (annotateFace env i w) as [[[]|e|f] w1]; cbn in *; try by split.
  destruct (IH w1) as [Hg' Ht']. split; [by eapply grown_trans | auto].
Qed.

Lemma annotateFrame_keeps env before w :
  let w' := (annotateFrame env w).2 in
  grown w w' /\ (tidy before w -> tidy before w').
Proof.
  rewrite annotateFrame_unfold. cbn zeta.
  destruct (for_each_keeps env before (seq 0 (length (faces (self w)))) w) as [Hg Ht].
  destruct (for_each _ _ w) as [[[]|e|f] w1]; cbn in *; by split.
Qed.

Lemma processFrame_keeps env before w :
  let w' := (processFrame env w).2 in
  grown w w' /\ (tidy before w -> tidy before w').
Proof.
  cbn zeta. destruct (empty (captured env)) eqn:Hempty.
  { rewrite processFrame_empty by done. split; [by repeat split|done]. }
  destruct (decide (Int.add (frameSkipCount (self w)) 1 = 0)) as [Hz|Hnz].
  { rewrite processFrame_zero_divisor by done. split; [by repeat split|done]. }
  destruct (decide (due (self w))) as [Hdue|Hskip];
    [|rewrite processFrame_skip by done; split; [by repeat split|done]].
  rewrite processFrame_full by done. unfold bind.
  destruct (annotateFrame_keeps env before (on_self (prepared env) w)) as [Hg Ht].
  destruct (annotateFrame env (on_self (prepared env) w)) as [[[]|e|f] w1]; cbn in *;
    try (split; [exact Hg | exact Ht]).
  destruct Hg as (Hd & Hi & Hv). split; [|exact Ht].
  repeat split; cbn; [done | done | by apply prefix_app_r].
Qed.

Lemma run_keeps before envs : forall w,
  let w' := (run envs w).2 in
  grown w w' /\ (tidy before w -> tidy before w').
Proof.
  induction envs as [|env envs IH]; intros w; [split; [apply grown_refl|done]|].
  cbn [run]. unfold bind. cbn zeta.
  destruct (processFrame_keeps env before w) as [Hg Ht].
  destruct (processFrame env w) as [[[]|e|f] w1]; cbn in *; try by split.
  destruct (IH w1) as [Hg' Ht']. split; [by eapply grown_trans | auto].
Qed.

(** X1: whatever the calls of a run meet and however they end, the run
    removes nothing: every path that was on disk is still there, the record
    of images written and the frames encoded into the video are only
    extended. *)
Theorem run_only_adds envs w :
  let w' := (run envs w).2 in
  disk w ⊆ disk w' /\
  imwrites w `prefix_of` imwrites w' /\
  videoWriter (self w) `prefix_of` videoWriter (self w').
Proof. apply (run_keeps ∅ envs w). Qed.

(** X2: in a run that starts with no image written, no two images go to the
    same file and none goes to a file that was on disk at the start, so no
    file is ever overwritten; every file written is on disk at the end.
    This holds however the run ends. *)
Theorem images_never_overwritten d files envs :
  let w' := (run envs (mkWorld d files [])).2 in
  NoDup (imwrites w').*1 /\
  (forall f, f ∈ (imwrites w').*1 -> (f ∉ files) /\ f ∈ disk w').
Proof.
  destruct (run_keeps files envs (mkWorld d files [])) as [_ Htidy].
  destruct Htidy as (Hdup & Hnames & _).
  { unfold tidy. cbn. split_and!; [constructor | intros f Hf; by apply elem_of_nil in Hf | done]. }
  split; [done|]. intros f Hf. by destruct (Hnames f Hf).
Qed.

(** ** The file name is found, not reserved *)

(** X3: [getUniqueFilename] only looks at the disk (and creates the
    directory): asked again before anything is written, it ends the same way
    with the same name, and leaves the world as the first call left it. *)
Theorem getUniqueFilename_not_reserved now w :
  getUniqueFilename now (getUniqueFilename now w).2 = getUniqueFilename now w.
Proof.
  unfold getUniqueFilename. cbn zeta.
  assert (create_directory "faces" (create_directory "faces" (disk w))
          = create_directory "faces" (disk w)) as Hdir
    by (unfold create_directory; set_solver).
  destruct (unique_name (create_directory "faces" (disk w)) now) eqn:Hname;
    cbn; rewrite Hdir, Hname; done.
Qed.

(** ** Which faces a cycle crops *)

Lemma syncSavedFlags_resize n saved : syncSavedFlags n saved = resize n false saved.
Proof.
  unfold syncSavedFlags. case_decide as Hn; [done|].
  subst n. by rewrite resize_all.
Qed.

Lemma crops_due_unsaved fs : crops_due fs (replicate (length fs) false) = fs.
Proof. induction fs as [|r fs IH]; [done|]. cbn. by rewrite IH. Qed.

Lemma crops_due_added fs : forall k,
  crops_due fs (resize (length fs) false (replicate k true)) = drop k fs.
Proof.
  induction fs as [|r fs IH]; intros k; [by destruct k|].
  destruct k as [|k]; cbn.
  - f_equal. apply crops_due_unsaved.
  - apply IH.
Qed.

(** X4: when the flags are all set, [k] of them, as every completed cycle
    leaves them, a full cycle that finds [n] faces crops exactly the
    detections at positions [k .. n-1]: all of them on the first cycle
    ([k = 0]), only the added slots when the count has grown, none when it has
    not.  Afterwards [n] flags are set. *)
Theorem crops_only_for_added_slots env w k :
  facesSaved (self w) = replicate k true ->
  empty (captured env) = false ->
  Int.add (frameSkipCount (self w)) 1 ≠ 0 ->
  due (self w) ->
  Z.of_nat (size (disk w)) + 2 * Z.of_nat (length (detected env)) < Int.INT_MAX ->
  exists w' new,
    processFrame env w = (Done tt, w') /\
    imwrites w' = imwrites w ++ new /\
    new.*2 = drop k (detected env) /\
    facesSaved (self w') = replicate (length (detected env)) true.
Proof.
  intros Hflags Hempty Hnz Hdue Hroom.
  destruct (processFrame_full_done env w Hempty Hnz Hdue Hroom)
    as (w' & new & Hrun & Hself & Hlog & Hrects & _).
  exists w', new. split_and!; [done | done | | by rewrite Hself].
  rewrite Hrects, unsaved_rects_crops_due, syncSavedFlags_resize, Hflags.
  apply crops_due_added.
Qed.

(** The three-face cycle after the two-face one crops the third face. *)
Lemma crops_only_for_added_slots_witness :
  exists w' (new : list (string * Rect)),
    processFrame env_three world_two = (Done tt, w') /\
    imwrites w' = imwrites world_two ++ new /\
    new.*2 = [face_c].
Proof.
  assert (facesSaved (self world_two) = replicate 2 true) as H0 by reflexivity.
  assert (empty (captured env_three) = false) as H1 by reflexivity.
  assert (Int.add (frameSkipCount (self world_two)) 1 ≠ 0) as H2
    by (vm_compute; discriminate).
  assert (due (self world_two)) as H3 by reflexivity.
  assert (Z.of_nat (size (disk world_two)) + 2 * Z.of_nat (length (detected env_three))
          < Int.INT_MAX) as H4 by (vm_compute; reflexivity).
  destruct (crops_only_for_added_slots env_three world_two 2 H0 H1 H2 H3 H4)
    as (w' & new & Hrun & Hlog & Hrects & _).
  exists w', new. split_and!; [exact Hrun | exact Hlog | exact Hrects].
Defined.

Lemma all_saved_flags_match d : all_saved d -> flags_match d.
Proof. unfold all_saved, flags_match. intros ->. apply length_replicate. Qed.

Lemma processFrame_all_set env w :
  all_saved (self w) ->
  (processFrame env w).1 ≠ Undefined EndlessLoop ->
  all_saved (self (processFrame env w).2).
Proof.
  intros Hall Hout. destruct (empty (captured env)) eqn:Hempty.
  { by rewrite processFrame_empty. }
  destruct (decide (Int.add (frameSkipCount (self w)) 1 = 0)) as [Hz|Hnz].
  { by rewrite processFrame_zero_divisor. }
  destruct (decide (due (self w))) as [Hdue|Hskip]; [|by rewrite processFrame_skip].
  rewrite processFrame_full in Hout |- * by done. unfold bind in *.
  pose proof (prepared_flags_match env (self w)) as Hprep.
  pose proof (annotateFrame_in_range env (on_self (prepared env) w) Hprep) as Hrange.
  destruct (annotateFrame env (on_self (prepared env) w)) as [o w1] eqn:Hrun.
  cbn in Hrange. destruct Hrange as [->| ->]; [|done].
  apply annotateFrame_done in Hrun as [Hself _]; [|done].
  cbn. unfold all_saved. rewrite Hself. done.
Qed.

Lemma run_all_set envs : forall w,
  all_saved (self w) ->
  (run envs w).1 ≠ Undefined EndlessLoop ->
  all_saved (self (run envs w).2).
Proof.
  induction envs as [|env envs IH]; intros w Hall Hout; [done|].
  cbn [run] in *. unfold bind in *.
  pose proof (processFrame_all_set env w Hall) as Hstep.
  destruct (processFrame env w) as [[[]|e|f] w1]; cbn in *.
  - apply IH; [by apply Hstep | done].
  - by apply Hstep.
  - by apply Hstep.
Qed.

(** X5: from construction on, after every sequence of calls that returns
    or that ends with a capture failure, whatever the filesystem answers,
    every saved flag is set and there is one flag for each stored detection:
    no detected slot is left without its crop. *)
Theorem flags_all_set_between_calls fs focal real speedUpFactor files log envs :
  let w0 := mkWorld (FaceDetector_new focal real speedUpFactor) files log in
  (Fs.run fs envs w0).1 = Done tt \/ (Fs.run fs envs w0).1 = Throw CaptureFailed ->
  facesSaved (self (Fs.run fs envs w0).2)
  = replicate (length (faces (self (Fs.run fs envs w0).2))) true.
Proof.
  intros w0 Hout.
  destruct (fs_run_or_fails fs envs w0) as [Heq|(message & w' & Heq & _)].
  - rewrite Heq in Hout |- *. apply (run_all_set envs w0); [done|].
    destruct Hout as [-> | ->]; discriminate.
  - rewrite Heq in Hout. destruct Hout as [Hout|Hout]; discriminate Hout.
Qed.

(** Two cycles at full rate on a filesystem that answers every call: every
    flag is set. *)
Lemma flags_all_set_between_calls_witness :
  facesSaved (self (Fs.run cooperative [env_two; env_three] fresh_world).2)
  = [true; true; true].
Proof.
  assert ((Fs.run cooperative [env_two; env_three] fresh_world).1 = Done tt \/
          (Fs.run cooperative [env_two; env_three] fresh_world).1 = Throw CaptureFailed)
    as H by (left; vm_compute; reflexivity).
  exact (flags_all_set_between_calls cooperative 800 14 1 ∅ []
           [env_two; env_three] H).
Defined.

(** ** What the video holds *)

Lemma processFrame_video env w :
  Forall annotated (videoWriter (self w)) ->
  Forall annotated (videoWriter (self (processFrame env w).2)).
Proof.
  intros Hgood. destruct (empty (captured env)) eqn:Hempty.
  { by rewrite processFrame_empty. }
  destruct (decide (Int.add (frameSkipCount (self w)) 1 = 0)) as [Hz|Hnz].
  { by rewrite processFrame_zero_divisor. }
  destruct (decide (due (self w))) as [Hdue|Hskip]; [|by rewrite processFrame_skip].
  rewrite processFrame_full by done. unfold bind.
  destruct (annotateFrame_stable env (on_self (prepared env) w))
    as [(_ & _ & _ & _ & Hvideo & _) _].
  destruct (annotateFrame env (on_self (prepared env) w)) as [o w1] eqn:Hrun.
  cbn [fst snd] in Hvideo.
  change (videoWriter (self (on_self (prepared env) w))) with (videoWriter (self w))
    in Hvideo.
  destruct o as [[]|e|f]; cbn [fst snd]; try (by rewrite Hvideo).
  apply annotateFrame_done in Hrun as [Hself _]; [|apply prepared_flags_match].
  cbn [modify on_self self videoWriter set_videoWriter snd].
  rewrite Hvideo. apply Forall_app. split; [done|]. apply Forall_singleton.
  rewrite Hself. cbn [frame set_frame self on_self prepared set_facesSaved set_faces
                      set_frameCounter faces length].
  destruct (captured env) as [|id ov]; [done|].
  rewrite draws_picture. split; [done|]. cbn [overlay_of].
  exists (length (detected env)). by rewrite !app_assoc, last_snoc.
Qed.

(** X6: from construction on, whatever the speed-up factor and however the
    calls end, every frame in the video is a picture whose last drawing is a
    summary line: a skipped frame or a frame whose annotation did not
    complete never reaches the video. *)
Theorem video_holds_annotated_frames focal real speedUpFactor files log envs :
  let w0 := mkWorld (FaceDetector_new focal real speedUpFactor) files log in
  Forall annotated (videoWriter (self (run envs w0).2)).
Proof.
  intros w0. assert (Forall annotated (videoWriter (self w0))) as Hgood by constructor.
  clearbody w0. revert w0 Hgood.
  induction envs as [|env envs IH]; intros w Hgood; [done|].
  cbn [run]. unfold bind.
  pose proof (processFrame_video env w Hgood) as Hstep.
  destruct (processFrame env w) as [[[]|e|f] w1]; cbn in *; [by apply IH | done | done].
Qed.

(** ** The drawings of a processed frame *)

Lemma length_concat_pairs {A B} (g : nat -> A -> list B) (l : list A) :
  (forall i a, length (g i a) = 2%nat) ->
  length (concat (imap g l)) = (2 * length l)%nat.
Proof.
  revert g. induction l as [|a l IH]; intros g Hg; [done|].
  rewrite imap_cons. cbn [concat length]. rewrite length_app, Hg, IH; [lia|].
  intros i b. apply Hg.
Qed.

(** X7: a full cycle on a disk with room for its crops adds to the captured
    picture, in this order, for each detected face its box and then its
    label "Face <i+1> Dist: <distance> cm" at the box's top-left corner, and
    last the summary line: [2 n + 1] drawings for [n] faces. *)
Theorem processed_frame_drawings env w :
  empty (captured env) = false ->
  Int.add (frameSkipCount (self w)) 1 ≠ 0 ->
  due (self w) ->
  Z.of_nat (size (disk w)) + 2 * Z.of_nat (length (detected env)) < Int.INT_MAX ->
  let n := length (detected env) in
  let added :=
    concat (imap (fun i r => [Rectangle r; PutText (labelText (self w) i r) (tl r)])
                 (detected env))
    ++ [PutText (faceMessage n) (10, 40)] in
  exists w',
    processFrame env w = (Done tt, w') /\
    overlay_of (frame (self w')) = overlay_of (captured env) ++ added /\
    length added = (2 * n + 1)%nat.
Proof.
  intros Hempty Hnz Hdue Hroom n added.
  destruct (processFrame_full_done env w Hempty Hnz Hdue Hroom)
    as (w' & new & Hrun & Hself & _).
  exists w'. split; [done|]. split.
  - rewrite Hself.
    cbn [frame set_frame set_videoWriter].
    destruct (captured env) as [|id ov] eqn:Hcap; [discriminate Hempty|].
    rewrite draws_picture. cbn [overlay_of]. unfold added, summary. do 2 f_equal.
    apply (drawings_range_imap (prepared env (self w))).
  - unfold added. rewrite length_app, length_concat_pairs by done. cbn. lia.
Qed.

(** The two faces of the first cycle at full rate, drawn and summed up. *)
Lemma processed_frame_drawings_witness :
  exists w',
    processFrame env_two fresh_world = (Done tt, w') /\
    overlay_of (frame (self w'))
    = [Rectangle face_a; PutText "Face 1 Dist: 112.00 cm" (10, 20);
       Rectangle face_b; PutText "Face 2 Dist: 56.00 cm" (200, 20);
       PutText "2 faces found" (10, 40)].
Proof.
  assert (empty (captured env_two) = false) as H1 by reflexivity.
  assert (Int.add (frameSkipCount (self fresh_world)) 1 ≠ 0) as H2
    by (vm_compute; discriminate).
  assert (due (self fresh_world)) as H3 by reflexivity.
  assert (Z.of_nat (size (disk fresh_world)) + 2 * Z.of_nat (length (detected env_two))
          < Int.INT_MAX) as H4 by (vm_compute; reflexivity).
  destruct (processed_frame_drawings env_two fresh_world H1 H2 H3 H4)
    as (w' & Hrun & Hdrawn & _).
  exists w'. split; [exact Hrun|]. rewrite Hdrawn. vm_compute. reflexivity.
Defined.

(** ** [annotateFrame] on its own *)

Lemma for_each_app body l1 : forall l2 w,
  for_each body (l1 ++ l2) w = (for_each body l1 ;; for_each body l2) w.
Proof.
  induction l1 as [|i l1 IH]; intros l2 w; [done|].
  cbn [app for_each]. unfold bind. destruct (body i w) as [[[]|e|f] w1]; [|done|done].
  rewrite IH. done.
Qed.

(** X8: [annotateFrame] relies on its caller for the flags.  Entered with
    fewer saved flags than detections (on a disk with room for the crops) it
    handles the slots that have a flag and then reads a flag outside the
    vector; the resize in [processFrame] is what rules this out. *)
Theorem annotateFrame_needs_flags env w :
  (length (facesSaved (self w)) < length (faces (self w)))%nat ->
  Z.of_nat (size (disk w)) + 2 * Z.of_nat (length (faces (self w))) < Int.INT_MAX ->
  (annotateFrame env w).1 = Undefined OutOfRange.
Proof.
  intros Hshort Hroom. rewrite annotateFrame_unfold.
  set (k := length (facesSaved (self w))) in *.
  set (n := length (faces (self w))) in *.
  assert (seq 0 n = seq 0 k ++ k :: seq (S k) (n - S k)) as ->.
  { replace n with (k + S (n - S k))%nat at 1 by lia. by rewrite seq_app. }
  rewrite for_each_app. unfold bind at 1.
  pose proof (annotate_loop_total env k 0 w) as Hdone.
  destruct (for_each_stable env (seq 0 k) w) as [(Hfaces & Hflags & _) _].
  destruct (for_each (annotateFace env) (seq 0 k) w) as [o w1]. cbn [fst snd] in *.
  rewrite Hdone by (fold n; fold k; lia).
  cbn [for_each]. unfold bind at 1.
  pose proof (annotateFace_cases env k w1) as Hcase.
  destruct (lookup_lt_is_Some_2 (faces (self w1)) k) as [r Hr];
    [rewrite Hfaces; fold n; lia|].
  rewrite Hr, (lookup_ge_None_2 (facesSaved (self w1)) k) in Hcase by (rewrite Hflags; done).
  rewrite Hcase. done.
Qed.

(** Three faces, two flags. *)
Lemma annotateFrame_needs_flags_witness :
  (annotateFrame env_three
     (on_self (set_faces [face_a; face_b; face_c]) world_two)).1
  = Undefined OutOfRange.
Proof.
  apply annotateFrame_needs_flags; vm_compute; [lia | reflexivity].
Defined.

(** ** Speed-up factors that are not positive *)

Lemma divisor_is_factor f : Int.in_range f -> Int.add (Int.sub f 1) 1 = f.
Proof.
  unfold Int.in_range, Int.INT_MIN, Int.INT_MAX, Int.add, Int.sub, Int.wrap. intros Hf.
  destruct (decide (f = -2147483648)) as [->|Hne]; [done|].
  rewrite (Z.mod_small (f - 1 + 2147483648)) by lia.
  rewrite Z.mod_small; lia.
Qed.

(** X9: the constructor takes any speed-up factor.  On the first non-empty
    capture the call divides by zero exactly when the factor is 0; with any
    other factor the divisor of [%] is the factor itself. *)
Theorem zero_factor_divides_by_zero focal real f files log env :
  Int.in_range f ->
  empty (captured env) = false ->
  let w0 := mkWorld (FaceDetector_new focal real f) files log in
  Int.add (frameSkipCount (self w0)) 1 = f /\
  ((processFrame env w0).1 = Undefined DivideByZero <-> f = 0).
Proof.
  intros Hf Hempty w0.
  assert (Int.add (frameSkipCount (self w0)) 1 = f) as Hdiv by (by apply divisor_is_factor).
  split; [done|]. split.
  - intros Hout. destruct (decide (f = 0)) as [|Hne]; [done|]. exfalso.
    assert (Int.add (frameSkipCount (self w0)) 1 ≠ 0) as Hnz by (by rewrite Hdiv).
    destruct (decide (due (self w0))) as [Hdue|Hskip];
      [|by rewrite processFrame_skip in Hout].
    rewrite processFrame_full in Hout by done. unfold bind in Hout.
    pose proof (annotateFrame_in_range env (on_self (prepared env) w0)
                  (prepared_flags_match env (self w0))) as Hrange.
    destruct (annotateFrame env (on_self (prepared env) w0)) as [o w1].
    cbn [fst] in Hrange. destruct Hrange as [->| ->]; discriminate Hout.
  - intros ->. rewrite processFrame_zero_divisor; done.
Qed.

(** The first frame with factor 0. *)
Lemma zero_factor_divides_by_zero_witness :
  (processFrame env_two (mkWorld (FaceDetector_new 800 14 0) ∅ [])).1
  = Undefined DivideByZero.
Proof.
  assert (Int.in_range 0) as H1 by (vm_compute; split; discriminate).
  assert (empty (captured env_two) = false) as H2 by reflexivity.
  destruct (zero_factor_divides_by_zero 800 14 0 ∅ [] env_two H1 H2) as [_ Hiff].
  apply Hiff. reflexivity.
Defined.

Section SignedCounter.
Variable g : Z.
Hypothesis g_range : 1 <= g <= Int.INT_MAX.

Lemma due_signed d :
  Int.add (frameSkipCount d) 1 = g \/ Int.add (frameSkipCount d) 1 = - g ->
  0 <= frameCounter d < g ->
  (due d <-> frameCounter d + 1 = g).
Proof.
  intros Hdiv Hc. unfold due. rewrite (counter_advance g g_range) by done.
  destruct Hdiv as [-> | ->]; [|rewrite Z.rem_opp_r by lia]; by apply counter_due.
Qed.

(** The count of [run_counts], for a divisor [g] or [- g]. *)
Lemma run_counts_signed envs : forall w,
  Int.add (frameSkipCount (self w)) 1 = g \/ Int.add (frameSkipCount (self w)) 1 = - g ->
  0 <= frameCounter (self w) < g ->
  Forall (fun e => empty (captured e) = false) envs ->
  Z.of_nat (size (disk w)) + 2 * Z.of_nat (total_detected envs) < Int.INT_MAX ->
  exists w',
    run envs w = (Done tt, w') /\
    frameCounter (self w') = (frameCounter (self w) + Z.of_nat (length envs)) mod g /\
    Z.of_nat (written w') =
      Z.of_nat (written w) + (frameCounter (self w) + Z.of_nat (length envs)) / g.
Proof.
  induction envs as [|env envs IH]; intros w Hdiv Hc Hlit Hroom.
  - exists w. cbn. rewrite Z.add_0_r, Z.mod_small, Z.div_small by lia.
    split_and!; (done || lia).
  - apply Forall_cons in Hlit as [Hempty Hlit].
    rewrite total_detected_cons in Hroom.
    assert (Int.add (frameSkipCount (self w)) 1 ≠ 0) as Hnz by (destruct Hdiv; lia).
    pose proof (due_signed (self w) Hdiv Hc) as Hdue_iff.
    cbn [run]. unfold bind.
    destruct (decide (frameCounter (self w) + 1 = g)) as [Hfull|Hnot].
    + assert (due (self w)) as Hdue by (by apply Hdue_iff).
      destruct (processFrame_full_done env w Hempty Hnz Hdue)
        as (w1 & new & Hstep & Hself & _ & Hrects & _ & _ & _ & _ & Hsize); [lia|].
      assert (length new <= length (detected env))%nat as Hnew.
      { rewrite <- (length_fmap snd), Hrects. apply unsaved_range_length. }
      rewrite Hstep.
      destruct (IH w1) as (w' & Hrun & Hc' & Hwritten).
      { by rewrite Hself. } { rewrite Hself. cbn. lia. } { done. } { lia. }
      exists w'. split; [done|].
      assert (frameCounter (self w1) = 0) as Hzero by (by rewrite Hself).
      assert (written w1 = S (written w)) as Hone.
      { unfold written. rewrite Hself. cbn. rewrite length_app. cbn. lia. }
      rewrite Hzero in Hc', Hwritten. rewrite Hone in Hwritten.
      replace (frameCounter (self w) + Z.of_nat (length (env :: envs)))
        with (Z.of_nat (length envs) + 1 * g) by (cbn [length]; lia).
      rewrite Z.mod_add, Z.div_add by lia.
      rewrite Z.add_0_l in Hc', Hwritten. split; [done | lia].
    + assert (¬ due (self w)) as Hskipped by (by rewrite Hdue_iff).
      rewrite processFrame_skip by done.
      destruct (IH (on_self (skipped env) w)) as (w' & Hrun & Hc' & Hwritten).
      { done. } { cbn. rewrite (counter_advance g g_range) by done. lia. }
      { done. } { cbn. lia. }
      exists w'. split; [done|].
      cbn in Hc', Hwritten. rewrite (counter_advance g g_range) in Hc', Hwritten by done.
      replace (frameCounter (self w) + Z.of_nat (length (env :: envs)))
        with (frameCounter (self w) + 1 + Z.of_nat (length envs)) by (cbn [length]; lia).
      split; [done | done].
Qed.

End SignedCounter.

(** X10: a negative speed-up factor [f] (above [INT_MIN]) is accepted and
    acts like [- f]: over a run of non-empty captures, on a disk with room
    for the crops, the run completes, one frame in [- f] is encoded, and the
    counter is the number of captures modulo [- f]. *)
Theorem negative_factor_acts_as_positive f focal real files log envs :
  - Int.INT_MAX <= f <= -1 ->
  Forall (fun e => empty (captured e) = false) envs ->
  Z.of_nat (size files) + 2 * Z.of_nat (total_detected envs) < Int.INT_MAX ->
  let w0 := mkWorld (FaceDetector_new focal real f) files log in
  (run envs w0).1 = Done tt /\
  Z.of_nat (written (run envs w0).2) = Z.of_nat (length envs) / (- f) /\
  frameCounter (self (run envs w0).2) = Z.of_nat (length envs) mod (- f).
Proof.
  intros Hf Hlit Hroom w0.
  assert (1 <= - f <= Int.INT_MAX) as Hg by lia.
  assert (Int.add (frameSkipCount (self w0)) 1 = - - f) as Hdiv.
  { rewrite Z.opp_involutive. apply divisor_is_factor.
    unfold Int.in_range, Int.INT_MIN, Int.INT_MAX in *. lia. }
  destruct (run_counts_signed (- f) Hg envs w0) as (w' & Hrun & Hc & Hw);
    [by right | cbn; lia | done | done |].
  rewrite Hrun. cbn [fst snd].
  change (frameCounter (self w0)) with 0 in Hc, Hw.
  change (written w0) with 0%nat in Hw.
  rewrite !Z.add_0_l in Hc, Hw. done.
Qed.

(** Factor -2 over three captures: one frame encoded, counter at 1. *)
Lemma negative_factor_acts_as_positive_witness :
  Z.of_nat (written (run [env_two; env_three; env_none]
                         (mkWorld (FaceDetector_new 800 14 (-2)) ∅ [])).2) = 3 / 2.
Proof.
  assert (- Int.INT_MAX <= -2 <= -1) as H1 by (unfold Int.INT_MAX; lia).
  assert (Forall (fun e => empty (captured e) = false) [env_two; env_three; env_none])
    as H2 by (repeat constructor).
  assert (Z.of_nat (size (∅ : gset string))
          + 2 * Z.of_nat (total_detected [env_two; env_three; env_none])
          < Int.INT_MAX) as H3 by (vm_compute; reflexivity).
  destruct (negative_factor_acts_as_positive (-2) 800 14 ∅ []
              [env_two; env_three; env_none] H1 H2 H3) as (_ & Hw & _).
  exact Hw.
Defined.

(** ** The distance estimate at its edges *)

Lemma positive_double c :
  (0 <? c)%float = true ->
  (exists m e, Prim2SF c = S754_finite false m e) \/ Prim2SF c = S754_infinity false.
Proof.
  intros Hpos. rewrite FloatAxioms.ltb_spec in Hpos.
  change (Prim2SF 0) with (S754_zero false) in Hpos.
  destruct (Prim2SF c) as [s|[|]| |[|] m e]; try discriminate Hpos; [by right | left; eauto].
Qed.

(** X11: a rectangle of width 0 does not stop the program: with a positive
    product of reference width and focal length the estimate is the double
    +infinity, and the label of such a face reads "Dist: inf cm". *)
Theorem zero_width_gives_infinity d :
  (0 <? realFaceWidth d * focalLength d)%float = true ->
  estimateDistance d 0 = infinity /\
  (forall i r, width r = 0 ->
     labelText d i r = ("Face " +:+ to_string (Z.of_nat i + 1)) +:+ " Dist: inf cm").
Proof.
  intros Hpos.
  assert (estimateDistance d 0 = infinity) as Hinf.
  { unfold estimateDistance, double_of_int. cbn [Z.ltb Z.compare].
    change (of_uint63 (Uint63.of_Z 0)) with 0%float.
    apply Prim2SF_inj. rewrite FloatAxioms.div_spec.
    change (Prim2SF 0) with (S754_zero false).
    change (Prim2SF infinity) with (S754_infinity false).
    destruct (positive_double _ Hpos) as [(m & e & ->)| ->]; done. }
  split; [done|]. intros i r Hr. unfold labelText. rewrite Hr, Hinf. done.
Qed.

(** The program's calibration and a rectangle without width. *)
Lemma zero_width_gives_infinity_witness :
  labelText (self fresh_world) 0 (mkRect 5 5 0 9) = "Face 1 Dist: inf cm".
Proof.
  assert ((0 <? realFaceWidth (self fresh_world) * focalLength (self fresh_world))%float
          = true) as Hpos by reflexivity.
  destruct (zero_width_gives_infinity (self fresh_world) Hpos) as [_ Hlabel].
  exact (Hlabel 0%nat (mkRect 5 5 0 9) eq_refl).
Defined.

Lemma SFdiv_by_one mc ec :
  2 ^ 52 <= Zpos mc < 2 ^ 53 -> -1043 <= ec <= 971 ->
  SFdiv prec emax (S754_finite false mc ec) (S754_finite false 4503599627370496 (-52))
  = S754_finite false mc ec.
Proof.
  intros Hmc Hec. cbn [SFdiv xorb]. unfold SFdiv_core_binary.
  cbn [Zdigits2]. rewrite (digits2_pos_unique mc 53) by (done || lia).
  change (Z.pos (digits2_pos 4503599627370496)) with 53.
  assert (Z.min (fexp prec emax (53 + ec - (53 + -52))) (ec - -52) = ec - 1) as ->
    by (unfold fexp, SpecFloat.emin, prec, emax; lia).
  replace (ec - -52 - (ec - 1)) with 53 by lia.
  rewrite Z.shiftl_mul_pow2 by lia.
  set (num := Zpos mc * 2 ^ 53).
  pose proof (Z.div_mod num 4503599627370496 ltac:(lia)) as Hdm.
  pose proof (Z.mod_pos_bound num 4503599627370496 ltac:(lia)) as Hmod.
  unfold Z.div, Z.modulo in Hdm, Hmod.
  destruct (Z.div_eucl num 4503599627370496) as [q r]. cbn [fst snd] in *.
  unfold num in *. pow2.
  assert (r = 0) as -> by lia. assert (q = Zpos mc~0) as -> by lia.
  change (new_location 4503599627370496 0) with loc_Exact.
  rewrite binary_round_aux_finish, shr_fexp_54 by (pow2; lia).
  cbn [shr_record_of_loc shr_1 shr_m loc_of_shr_record round_nearest_even orb].
  destruct (finish_spec (Zpos mc) (ec - 1 + 1)) as (M & k & Hfin & Hk & HM & Hval).
  { pow2. lia. } { lia. } { destruct (Z.eqb_spec (Zpos mc) (2 ^ 53)); pow2; lia. }
  assert (k = 0) as -> by (assert (k = 0 \/ k = 1) as [->| ->] by lia; pow2; lia).
  pow2. assert (M = mc) as -> by lia.
  rewrite Hfin. f_equal. lia.
Qed.

Lemma quotient_is_normal c a :
  (0x1p-991 <=? c)%float = true -> (c <? infinity)%float = true ->
  0 < a < 2 ^ 31 ->
  exists M E, Prim2SF (c / of_uint63 (Uint63.of_Z a)) = S754_finite false M E.
Proof.
  intros Hlo Hhi Ha.
  destruct (normal_product c Hlo Hhi) as (mc & ec & Hc & Hmc & Hec).
  destruct (Prim2SF_double_of_int a Ha) as (ma & ua & HA & Hma & Hua & Hva).
  rewrite FloatAxioms.div_spec, Hc, HA. unfold SF64div.
  destruct (SFdiv_by_int mc ec ma ua) as (M & k & -> & _); try done; [|eauto].
  intros ->. rewrite Hva in Hma. pow2. lia.
Qed.

Lemma ltb_leb x y : (x <? y)%float = true -> (x <=? y)%float = true.
Proof.
  rewrite FloatAxioms.ltb_spec, FloatAxioms.leb_spec. unfold SFltb, SFleb.
  by destruct (SFcompare (Prim2SF x) (Prim2SF y)) as [[]|].
Qed.

(** X12: when the product of reference width and focal length is a finite
    double of at least 2^-991, the estimate at width 1 is that product
    itself, and at every positive width the estimate is a positive finite
    double no greater than the product. *)
Theorem estimate_bounded_by_product d a :
  (0x1p-991 <=? realFaceWidth d * focalLength d)%float = true ->
  (realFaceWidth d * focalLength d <? infinity)%float = true ->
  0 < a <= Int.INT_MAX ->
  estimateDistance d 1 = (realFaceWidth d * focalLength d)%float /\
  (0 <? estimateDistance d a)%float = true /\
  (estimateDistance d a <? infinity)%float = true /\
  (estimateDistance d a <=? realFaceWidth d * focalLength d)%float = true.
Proof.
  intros Hlo Hhi Ha. set (c := (realFaceWidth d * focalLength d)%float) in *.
  assert (estimateDistance d 1 = c) as Hone.
  { unfold estimateDistance, double_of_int. cbn [Z.ltb Z.compare]. fold c.
    apply Prim2SF_inj. rewrite FloatAxioms.div_spec.
    change (Prim2SF (of_uint63 (Uint63.of_Z 1)))
      with (S754_finite false 4503599627370496 (-52)).
    destruct (normal_product c Hlo Hhi) as (mc & ec & -> & Hmc & Hec).
    by apply SFdiv_by_one. }
  assert (estimateDistance d a = (c / of_uint63 (Uint63.of_Z a))%float) as Hest.
  { unfold estimateDistance, double_of_int. destruct (Z.ltb_spec a 0); [lia | done]. }
  destruct (quotient_is_normal c a Hlo Hhi) as (M & E & Hq).
  { unfold Int.INT_MAX in Ha. change (2 ^ 31) with 2147483648. lia. }
  split; [done|]. rewrite Hest. split_and!.
  - rewrite FloatAxioms.ltb_spec, Hq. done.
  - rewrite FloatAxioms.ltb_spec, Hq. done.
  - destruct (decide (a = 1)) as [->|Hne].
    + rewrite <- Hest, Hone. rewrite FloatAxioms.leb_spec.
      destruct (normal_product c Hlo Hhi) as (mc & ec & -> & _).
      unfold SFleb, SFcompare. rewrite Z.compare_refl.
      by rewrite Pos.compare_cont_refl.
    + apply ltb_leb. rewrite <- Hone at 2.
      unfold estimateDistance, double_of_int. cbn [Z.ltb Z.compare]. fold c.
      apply division_decreasing; try done; [lia|].
      unfold Int.INT_MAX in Ha. change (2 ^ 31) with 2147483648. lia.
Qed.

(** The program's calibration at a width of 3 pixels. *)
Lemma estimate_bounded_by_product_witness :
  estimateDistance (self fresh_world) 1 = 11200%float /\
  (estimateDistance (self fresh_world) 3 <=? 11200)%float = true.
Proof.
  assert ((0x1p-991 <=? realFaceWidth (self fresh_world) * focalLength (self fresh_world))%float
          = true) as H1 by reflexivity.
  assert ((realFaceWidth (self fresh_world) * focalLength (self fresh_world) <? infinity)%float
          = true) as H2 by reflexivity.
  assert (0 < 3 <= Int.INT_MAX) as H3 by (unfold Int.INT_MAX; lia).
  destruct (estimate_bounded_by_product (self fresh_world) 3 H1 H2 H3)
    as (Hone & _ & _ & Hle).
  split; [exact Hone | exact Hle].
Defined.

(** ** Startup *)

Lemma startup_failure_report s ticks files :
  camera_opens s && cascade_loads s && writer_opens s = false ->
  main s ticks files
  = (Exited (-1), None,
     mkDesk [what (startup_error s); what (startup_error s)] [] ∅ false).
Proof. destruct s as [[] [] []]; intros H; try discriminate H; reflexivity. Qed.

(** X13: when a resource does not open, [main] exits with -1 whatever the
    camera would deliver: no frame is read, nothing is shown, the camera is
    not held afterwards, and the message of the first resource that failed
    (the camera before the cascade, the cascade before the video writer) has
    been written to the error stream twice, once where it is thrown and once
    by the handler. *)
Theorem startup_failure_exits s ticks files :
  camera_opens s && cascade_loads s && writer_opens s = false ->
  main s ticks files
  = (Exited (-1), None,
     mkDesk [what (startup_error s); what (startup_error s)] [] ∅ false).
Proof. apply startup_failure_report. Qed.

(** The cascade file is missing. *)
Lemma startup_failure_exits_witness :
  main (mkStartup true false true) [mkTick env_two 0] ∅
  = (Exited (-1), None,
     mkDesk ["Error: Could not load face cascade."; "Error: Could not load face cascade."]
            [] ∅ false).
Proof. exact (startup_failure_exits (mkStartup true false true) [mkTick env_two 0] ∅ eq_refl). Defined.

(** ** The entry loop *)

Lemma display_all_snoc ms m k :
  display_all (ms ++ [m]) k
  = mkDesk (cerr (display_all ms k)) (shown (display_all ms k) ++ [("Face Detection", m)])
           ({[ "Face Detection" ]} ∪ windows (display_all ms k))
           (camera_held (display_all ms k)).
Proof. unfold display_all. by rewrite foldl_app. Qed.

Lemma display_all_desk ms : forall k,
  cerr (display_all ms k) = cerr k /\
  camera_held (display_all ms k) = camera_held k /\
  shown (display_all ms k) = shown k ++ ((fun m => ("Face Detection", m)) <$> ms).
Proof.
  induction ms as [|m ms IH]; intros k; [by rewrite app_nil_r|].
  destruct (IH (mkDesk (cerr k) (shown k ++ [("Face Detection", m)])
                       ({[ "Face Detection" ]} ∪ windows k) (camera_held k)))
    as (Hc & Hh & Hs).
  change (display_all (m :: ms) k)
    with (display_all ms (mkDesk (cerr k) (shown k ++ [("Face Detection", m)])
                                 ({[ "Face Detection" ]} ∪ windows k) (camera_held k))).
  rewrite Hc, Hh, Hs. cbn [cerr camera_held shown fmap list_fmap].
  by rewrite <- app_assoc.
Qed.

Lemma length_held_frames envs : forall w w',
  run envs w = (Done tt, w') -> length (held_frames envs w) = length envs.
Proof.
  induction envs as [|env envs IH]; intros w w' Hrun; [done|].
  cbn [run held_frames] in *. unfold bind in Hrun.
  destruct (processFrame env w) as [[[]|e|f] w1]; try discriminate Hrun.
  cbn. f_equal. by eapply IH.
Qed.

(** While no ['q'] is read and the calls return, the loop is the run of
    its environments, each frame shown after its call. *)
Lemma entry_loop_runs ticks : forall w w' k more,
  Forall (fun t => tick_key t ≠ key_q) ticks ->
  run (tick_env <$> ticks) w = (Done tt, w') ->
  entry_loop (ticks ++ more) w k
  = entry_loop more w' (display_all (held_frames (tick_env <$> ticks) w) k).
Proof.
  induction ticks as [|t ticks IH]; intros w w' k more Hkeys Hrun.
  - by injection Hrun as ->.
  - apply Forall_cons in Hkeys as [Hkey Hkeys].
    cbn [fmap list_fmap run held_frames app entry_loop] in *.
    unfold processFrame_logged. unfold bind in Hrun.
    destruct (processFrame (tick_env t) w) as [[[]|e|f] w1]; try discriminate Hrun.
    rewrite decide_False by done. by rewrite (IH w1 w').
Qed.

Lemma main_all_open ticks files :
  main all_open ticks files
  = match entry_loop ticks (main_world files) (mkDesk [] [] ∅ true) with
    | (Done true, w, k2) => (Exited 0, Some w, VideoProcessor_dtor k2)
    | (Done false, w, k2) => (Running, Some w, k2)
    | (Throw e, w, k2) => (Exited (-1), Some w, log_error (what e) (VideoProcessor_dtor k2))
    | (Undefined f, w, k2) => (Broken f, Some w, k2)
    end.
Proof. reflexivity. Qed.

Lemma main_world_counts files :
  frameSkipCount (self (main_world files)) = 2 - 1 /\
  frameCounter (self (main_world files)) = 0.
Proof. split; reflexivity. Qed.

(** One turn of the loop at speed-up 2: how it can end, and the frame it
    leaves to be shown. *)
Lemma processFrame_turn env w :
  frameSkipCount (self w) = 1 ->
  0 <= frameCounter (self w) < 2 ->
  match processFrame env w with
  | (Done _, w1) =>
      frameSkipCount (self w1) = 1 /\
      frameCounter (self w1) = (frameCounter (self w) + 1) mod 2 /\
      empty (captured env) = false /\
      if decide (frameCounter (self w) = 0)
      then frame (self w1) = captured env
      else exists ds,
             frame (self w1)
             = draws (ds ++ [summary (length (detected env))]) (captured env)
  | (Throw e, _) => e = CaptureFailed
  | (Undefined f, _) => f = EndlessLoop
  end.
Proof.
  intros Hskip Hc. destruct (empty (captured env)) eqn:Hempty.
  { by rewrite processFrame_empty. }
  assert (Int.add (frameSkipCount (self w)) 1 = 2) as Hdiv by (by rewrite Hskip).
  assert (Int.add (frameSkipCount (self w)) 1 ≠ 0) as Hnz by (rewrite Hdiv; lia).
  destruct (decide (frameCounter (self w) = 0)) as [Hzero|Hone].
  - rewrite processFrame_skip; [| done | done |].
    + cbn [self on_self skipped frameSkipCount frameCounter frame set_frameCounter
           set_frame]. rewrite Hzero. by split_and!.
    + unfold due. rewrite Hdiv, Hzero. by vm_compute.
  - assert (frameCounter (self w) = 1) as Hc1 by lia.
    rewrite processFrame_full; [| done | done |].
    2:{ unfold due. rewrite Hdiv, Hc1. by vm_compute. }
    unfold bind.
    pose proof (annotateFrame_in_range env (on_self (prepared env) w)) as Hout.
    destruct (annotateFrame env (on_self (prepared env) w)) as [o w1] eqn:Hrun.
    destruct o as [[]|e|f].
    + apply annotateFrame_done in Hrun as [Hself _]; [|apply prepared_flags_match].
      cbn [modify on_self self frameSkipCount frameCounter frame set_videoWriter].
      rewrite Hself.
      cbn [frameSkipCount frameCounter frame set_frame set_facesSaved self on_self
           prepared set_faces set_frameCounter faces].
      rewrite Hc1. split_and!; [done | done | done |].
      by eexists.
    + destruct Hout as [Hout|Hout]; [apply prepared_flags_match | |]; discriminate Hout.
    + destruct Hout as [Hout|Hout]; [apply prepared_flags_match | |];
        cbn in Hout; congruence.
Qed.





(** The frames the loop shows at speed-up 2, turn by turn. *)
Lemma entry_loop_shown ticks : forall w k,
  frameSkipCount (self w) = 1 ->
  0 <= frameCounter (self w) < 2 ->
  exists new : list (string * Mat),
    shown (entry_loop ticks w k).2 = shown k ++ new /\
    forall (j : nat) name m, new !! j = Some (name, m) ->
      exists t, ticks !! j = Some t /\
        name = "Face Detection" /\
        empty m = false /\
        if decide ((frameCounter (self w) + Z.of_nat j) mod 2 = 0)
        then m = captured (tick_env t)
        else exists ds,
               m = draws (ds ++ [summary (length (detected (tick_env t)))])
                         (captured (tick_env t)).
Proof.
  induction ticks as [|t ticks IH]; intros w k Hskip Hc.
  { exists []. split; [by rewrite app_nil_r | done]. }
  cbn [entry_loop]. unfold processFrame_logged.
  pose proof (processFrame_turn (tick_env t) w Hskip Hc) as Hturn.
  destruct (processFrame (tick_env t) w) as [[[]|e|f] w1];
    [| exists []; split; [by rewrite app_nil_r | done] ..].
  destruct Hturn as (Hskip1 & Hc1 & Hlit & Hframe).
  assert (0 <= frameCounter (self w1) < 2) as Hrange
    by (rewrite Hc1; apply Z.mod_pos_bound; lia).
  assert (empty (frame (self w1)) = false /\
          if decide ((frameCounter (self w) + 0) mod 2 = 0)
          then frame (self w1) = captured (tick_env t)
          else exists ds,
                 frame (self w1)
                 = draws (ds ++ [summary (length (detected (tick_env t)))])
                         (captured (tick_env t))) as [Hpicture Hfirst].
  { rewrite Z.add_0_r, Z.mod_small by done.
    destruct (decide (frameCounter (self w) = 0)) as [Hz|Hnz].
    - by rewrite Hframe.
    - destruct Hframe as [ds Hds]. split; [|by exists ds].
      by rewrite Hds, empty_draws. }
  assert (forall new : list (string * Mat),
            (forall (j : nat) name m, new !! j = Some (name, m) ->
               exists t', ticks !! j = Some t' /\
                 name = "Face Detection" /\ empty m = false /\
                 if decide ((frameCounter (self w1) + Z.of_nat j) mod 2 = 0)
                 then m = captured (tick_env t')
                 else exists ds,
                        m = draws (ds ++ [summary (length (detected (tick_env t')))])
                                  (captured (tick_env t'))) ->
            forall (j : nat) name m,
              (("Face Detection", frame (self w1)) :: new) !! j = Some (name, m) ->
              exists t', (t :: ticks) !! j = Some t' /\
                name = "Face Detection" /\ empty m = false /\
                if decide ((frameCounter (self w) + Z.of_nat j) mod 2 = 0)
                then m = captured (tick_env t')
                else exists ds,
                       m = draws (ds ++ [summary (length (detected (tick_env t')))])
                                 (captured (tick_env t'))) as Hcons.
  { intros new Hnew [|j] name m Hj.
    - injection Hj as <- <-. exists t. by split_and!.
    - destruct (Hnew j name m Hj) as (t' & Ht' & Hname & Hm & Hparity).
      exists t'. split_and!; try done.
      replace ((frameCounter (self w) + Z.of_nat (S j)) mod 2)
        with ((frameCounter (self w1) + Z.of_nat j) mod 2); [done|].
      rewrite Hc1, Zplus_mod_idemp_l. f_equal. lia. }
  destruct (decide (tick_key t = key_q)) as [Hkey|Hkey].
  - exists [("Face Detection", frame (self w1))]. split; [done|].
    apply Hcons. intros j name m Hj. done.
  - destruct (IH w1 (displayFrame "Face Detection" (self w1) k) Hskip1 Hrange)
      as (new & Hshown & Hnew).
    exists (("Face Detection", frame (self w1)) :: new). split.
    + rewrite Hshown. cbn [displayFrame shown]. by rewrite <- app_assoc.
    + by apply Hcons.
Qed.

Lemma shown_of_main files ticks :
  shown (main all_open ticks files).2
  = shown (entry_loop ticks (main_world files) (mkDesk [] [] ∅ true)).2.
Proof.
  rewrite main_all_open.
  by destruct (entry_loop ticks _ _) as [[[[]|e|f] w] k].
Qed.

(** X15: what [main] shows.  Every frame shown goes to the window
    ["Face Detection"], is the frame of the turn of the same rank, and is
    never empty.  With the speed-up factor 2 of [main] the turns alternate:
    the first, third, ... frame shown is the capture as it was read, with
    nothing drawn on it; the second, fourth, ... is the capture with drawings
    on it that end with the summary line for the number of faces detected in
    that turn. *)
Theorem main_shows_alternately s ticks files (j : nat) name m :
  shown (main s ticks files).2 !! j = Some (name, m) ->
  exists t, ticks !! j = Some t /\
    name = "Face Detection" /\
    empty m = false /\
    if Nat.even j
    then m = captured (tick_env t)
    else exists ds,
           m = draws (ds ++ [summary (length (detected (tick_env t)))])
                     (captured (tick_env t)).
Proof.
  intros Hj.
  destruct (camera_opens s && cascade_loads s && writer_opens s) eqn:Hopen.
  2:{ by rewrite startup_failure_report in Hj. }
  assert (s = all_open) as ->.
  { destruct s as [[] [] []]; try discriminate Hopen. done. }
  rewrite shown_of_main in Hj.
  destruct (main_world_counts files) as [Hskip Hc].
  destruct (entry_loop_shown ticks (main_world files) (mkDesk [] [] ∅ true)
              Hskip ltac:(rewrite Hc; lia)) as (new & Hshown & Hnew).
  rewrite Hshown in Hj. cbn [shown app] in Hj.
  destruct (Hnew j name m Hj) as (t & Ht & Hname & Hm & Hparity).
  exists t. split_and!; try done.
  rewrite Hc, Z.add_0_l in Hparity.
  destruct (Nat.even j) eqn:Heven.
  - apply Nat.even_spec in Heven as [h ->].
    rewrite decide_True in Hparity; [done|].
    rewrite Nat2Z.inj_mul, Z.mul_comm. apply Z.mod_mul. lia.
  - assert (Nat.odd j = true) as Hodd by (by rewrite <- Nat.negb_even, Heven).
    apply Nat.odd_spec in Hodd as [h ->].
    rewrite decide_False in Hparity; [done|].
    rewrite Nat2Z.inj_add, Nat2Z.inj_mul, Z.add_comm, Z.mul_comm, Z.mod_add by lia.
    done.
Qed.

(** Two turns with two faces each: the first is shown as captured, the
    second annotated. *)
Lemma main_shows_alternately_witness :
  let m := frame (self (run [env_two; env_two] (main_world ∅)).2) in
  shown (main all_open [mkTick env_two 0; mkTick env_two 0] ∅).2 !! 1%nat
  = Some ("Face Detection", m) /\
  exists t, [mkTick env_two 0; mkTick env_two 0] !! 1%nat = Some t /\
    empty m = false /\
    exists ds,
      m = draws (ds ++ [summary (length (detected (tick_env t)))])
                (captured (tick_env t)).
Proof.
  intros m.
  assert (shown (main all_open [mkTick env_two 0; mkTick env_two 0] ∅).2 !! 1%nat
          = Some ("Face Detection", m)) as H
    by (vm_compute; reflexivity).
  split; [exact H|].
  destruct (main_shows_alternately _ _ _ _ _ _ H) as (t & Ht & _ & Hm & Hds).
  exists t. by split_and!.
Defined.

(** ** Leaving the loop *)

Lemma lit_ticks (ticks : list Tick) :
  Forall (fun t => empty (captured (tick_env t)) = false) ticks ->
  Forall (fun e => empty (captured e) = false) (tick_env <$> ticks).
Proof. intros Hlit. by apply Forall_fmap. Qed.

(** The loop of [main] through turns that complete without a ['q']. *)
Lemma main_loop_runs (pre : list Tick) files :
  Forall (fun t => tick_key t ≠ key_q) pre ->
  Forall (fun t => empty (captured (tick_env t)) = false) pre ->
  Z.of_nat (size files) + 2 * Z.of_nat (total_detected (tick_env <$> pre)) < Int.INT_MAX ->
  exists w k,
    run (tick_env <$> pre) (main_world files) = (Done tt, w) /\
    (forall more,
       entry_loop (pre ++ more) (main_world files) (mkDesk [] [] ∅ true)
       = entry_loop more w k) /\
    frameSkipCount (self w) = 1 /\
    0 <= frameCounter (self w) < 2 /\
    (size (disk w) <= size files + 2 * total_detected (tick_env <$> pre))%nat /\
    cerr k = [] /\ camera_held k = true /\ length (shown k) = length pre.
Proof.
  intros Hkeys Hlit Hroom.
  destruct (main_world_counts files) as [Hskip Hc].
  destruct (run_counts 2 ltac:(unfold Int.INT_MAX; lia) (tick_env <$> pre)
              (main_world files) Hskip ltac:(rewrite Hc; lia) (lit_ticks pre Hlit) Hroom)
    as (w & Hrun & Hskip' & Hc' & _ & Hsize).
  exists w, (display_all (held_frames (tick_env <$> pre) (main_world files))
                        (mkDesk [] [] ∅ true)).
  destruct (display_all_desk (held_frames (tick_env <$> pre) (main_world files))
              (mkDesk [] [] ∅ true)) as (Hcerr & Hheld & Hshown).
  split_and!; try done.
  - intros more. by apply entry_loop_runs.
  - rewrite Hc'. apply Z.mod_pos_bound. lia.
  - rewrite Hc'. apply Z.mod_pos_bound. lia.
  - rewrite Hshown. cbn [shown app]. rewrite length_fmap.
    rewrite (length_held_frames _ _ w Hrun). by rewrite length_fmap.
Qed.

(** X16: ['q'] ends [main] in the turn in which it is read, after that
    turn's frame has been processed and shown.  When the turns before it
    read other keys, all captures up to it are pictures and the disk has
    room for the crops, [main] exits with 0: the object has gone through
    exactly those turns, one frame has been shown per turn, nothing is on
    the error stream, the camera is released and the windows are closed.
    What the camera and the keyboard would have delivered afterwards plays
    no part. *)
Theorem quit_key_ends_main (pre : list Tick) t rest files :
  Forall (fun t' => tick_key t' ≠ key_q) pre ->
  tick_key t = key_q ->
  Forall (fun t' => empty (captured (tick_env t')) = false) (pre ++ [t]) ->
  Z.of_nat (size files) + 2 * Z.of_nat (total_detected (tick_env <$> pre ++ [t]))
  < Int.INT_MAX ->
  exists w k,
    main all_open (pre ++ t :: rest) files = (Exited 0, Some w, k) /\
    run (tick_env <$> pre ++ [t]) (main_world files) = (Done tt, w) /\
    length (shown k) = S (length pre) /\
    cerr k = [] /\ windows k = ∅ /\ camera_held k = false.
Proof.
  intros Hkeys Hq Hlit Hroom.
  apply Forall_app in Hlit as [Hlit Ht]. rewrite Forall_singleton in Ht.
  rewrite fmap_app, total_detected_app in Hroom. cbn [fmap list_fmap] in Hroom.
  unfold total_detected at 2 in Hroom. cbn [fmap list_fmap concat] in Hroom.
  rewrite app_nil_r in Hroom.
  destruct (main_loop_runs pre files Hkeys Hlit ltac:(lia))
    as (w1 & k1 & Hrun & Hloop & Hskip & Hc & Hsize & Hcerr & Hheld & Hshown).
  assert (exists w, processFrame (tick_env t) w1 = (Done tt, w)) as [w Hstep].
  { destruct (run_counts 2 ltac:(unfold Int.INT_MAX; lia) [tick_env t] w1 Hskip Hc)
      as (w & Hone & _).
    - by apply Forall_singleton.
    - unfold total_detected. cbn [fmap list_fmap concat]. rewrite app_nil_r. lia.
    - exists w. cbn [run] in Hone. unfold bind in Hone.
      destruct (processFrame (tick_env t) w1) as [[[]|e|f] w2]; try discriminate Hone.
      by injection Hone as ->. }
  exists w, (VideoProcessor_dtor (displayFrame "Face Detection" (self w) k1)).
  split_and!; try done.
  - rewrite main_all_open, Hloop. cbn [entry_loop]. unfold processFrame_logged.
    rewrite Hstep. by rewrite decide_True.
  - rewrite fmap_app, run_app. unfold bind at 1. rewrite Hrun.
    cbn [fmap list_fmap run]. unfold bind. by rewrite Hstep.
  - cbn [VideoProcessor_dtor displayFrame shown]. rewrite length_app, Hshown.
    cbn [length]. lia.
Qed.

(** One turn without a key, then ['q']; two more turns that are never
    reached, the first of them with an empty capture. *)
Lemma quit_key_ends_main_witness :
  exists w k,
    main all_open ([mkTick env_two 0] ++ mkTick env_three 113
                     :: [mkTick env_dark 0; mkTick env_two 0]) ∅
    = (Exited 0, Some w, k) /\
    run (tick_env <$> [mkTick env_two 0] ++ [mkTick env_three 113]) (main_world ∅)
    = (Done tt, w) /\
    length (shown k) = 2%nat /\
    cerr k = [] /\ windows k = ∅ /\ camera_held k = false.
Proof.
  apply (quit_key_ends_main [mkTick env_two 0] (mkTick env_three 113)
           [mkTick env_dark 0; mkTick env_two 0] ∅).
  - apply Forall_singleton. vm_compute. discriminate.
  - reflexivity.
  - repeat constructor.
  - rewrite size_empty. vm_compute. reflexivity.
Defined.

(** X17: a read that delivers no picture ends [main] in that turn, whatever
    key would have been read in it.  When the turns before it completed
    without a ['q'], [main] exits with -1: the object is as those turns left
    it except that it holds the empty frame (images written and frames
    encoded before are kept), the failed turn shows nothing, the message of
    the capture failure has been written to the error stream twice, the
    camera is released and the windows are closed. *)
Theorem empty_capture_ends_main (pre : list Tick) t rest files :
  Forall (fun t' => tick_key t' ≠ key_q) pre ->
  Forall (fun t' => empty (captured (tick_env t')) = false) pre ->
  empty (captured (tick_env t)) = true ->
  Z.of_nat (size files) + 2 * Z.of_nat (total_detected (tick_env <$> pre)) < Int.INT_MAX ->
  exists w k,
    run (tick_env <$> pre) (main_world files) = (Done tt, w) /\
    main all_open (pre ++ t :: rest) files
    = (Exited (-1), Some (on_self (set_frame (captured (tick_env t))) w), k) /\
    length (shown k) = length pre /\
    cerr k = ["Error: Could not read a frame from the camera.";
              "Error: Could not read a frame from the camera."] /\
    windows k = ∅ /\ camera_held k = false.
Proof.
  intros Hkeys Hlit Hempty Hroom.
  destruct (main_loop_runs pre files Hkeys Hlit Hroom)
    as (w1 & k1 & Hrun & Hloop & Hskip & Hc & Hsize & Hcerr & Hheld & Hshown).
  exists w1, (log_error (what CaptureFailed) (VideoProcessor_dtor (log_error (what CaptureFailed) k1))).
  split_and!; try done.
  - rewrite main_all_open, Hloop. cbn [entry_loop]. unfold processFrame_logged.
    by rewrite processFrame_empty.
  - cbn [log_error VideoProcessor_dtor cerr]. by rewrite Hcerr.
Qed.

(** One full pair of turns, then the camera delivers nothing while ['q'] is
    pressed. *)
Lemma empty_capture_ends_main_witness :
  exists w k,
    run (tick_env <$> [mkTick env_two 0; mkTick env_two 0]) (main_world ∅) = (Done tt, w) /\
    main all_open ([mkTick env_two 0; mkTick env_two 0] ++ mkTick env_dark 113 :: []) ∅
    = (Exited (-1), Some (on_self (set_frame (captured (tick_env (mkTick env_dark 113)))) w), k) /\
    length (shown k) = 2%nat /\
    cerr k = ["Error: Could not read a frame from the camera.";
              "Error: Could not read a frame from the camera."] /\
    windows k = ∅ /\ camera_held k = false.
Proof.
  apply (empty_capture_ends_main [mkTick env_two 0; mkTick env_two 0]
           (mkTick env_dark 113) [] ∅).
  - repeat constructor; vm_compute; discriminate.
  - repeat constructor.
  - reflexivity.
  - rewrite size_empty. vm_compute. reflexivity.
Defined.

(** ** A filesystem call that fails *)


Lemma fs_processFrame_full fs env w :
  empty (captured env) = false ->
  Int.add (frameSkipCount (self w)) 1 ≠ 0 ->
  due (self w) ->
  Fs.processFrame fs env w =
  (Fs.annotateFrame fs env ;;
   modify (fun d => set_videoWriter (videoWriter d ++ [frame d]) d))
    (on_self (prepared env) w).
Proof.
  intros Hempty Hnz Hdue.
  unfold Fs.processFrame, bind at 1 2 3 4 5 6, modify at 1 2, get. cbn.
  rewrite Hempty. cbn. rewrite decide_False by done. cbn.
  rewrite decide_False by (intros Hne; by apply Hne). done.
Qed.

Lemma fs_annotateFrame_unfold fs env w :
  Fs.annotateFrame fs env w =
  match for_each (Fs.annotateFace fs env) (seq 0 (length (faces (self w)))) w with
  | (Done _, w1) =>
      (Done tt, on_self (fun d => set_frame
                                    (draw (summary (length (faces (self w)))) (frame d)) d) w1)
  | (Throw e, w1) => (Throw e, w1)
  | (Undefined f, w1) => (Undefined f, w1)
  end.
Proof. done. Qed.

(** A slot that has to be saved, on a filesystem that refuses the
    directory: the box is drawn, then [create_directory] throws. *)
Lemma fs_annotateFace_refused fs env i w message r :
  refused fs "faces" = Some message ->
  faces (self w) !! i = Some r ->
  facesSaved (self w) !! i = Some false ->
  Fs.annotateFace fs env i w
  = (Throw (filesystem_error message),
     on_self (fun d => set_frame (draw (Rectangle r) (frame d)) d) w).
Proof.
  intros Hdir Hr Hb.
  unfold Fs.annotateFace, bind, get, at_index, modify, ret, Fs.getUniqueFilename,
    Fs.create_directory, on_self. cbn.
  rewrite Hr. cbn. rewrite Hb. cbn. by rewrite Hdir.
Qed.

(** The first faces of a session on a filesystem that refuses the
    directory. *)
Lemma fs_processFrame_refused fs env w message r rest :
  refused fs "faces" = Some message ->
  empty (captured env) = false ->
  Int.add (frameSkipCount (self w)) 1 ≠ 0 ->
  due (self w) ->
  facesSaved (self w) = [] ->
  detected env = r :: rest ->
  Fs.processFrame fs env w
  = (Throw (filesystem_error message),
     on_self (fun d => set_frame (draw (Rectangle r) (captured env))
                         (set_facesSaved (replicate (length (detected env)) false)
                            (set_faces (detected env) (set_frameCounter 0 d)))) w).
Proof.
  intros Hdir Hempty Hnz Hdue Hflags Hfaces.
  rewrite fs_processFrame_full by done. unfold bind at 1.
  rewrite fs_annotateFrame_unfold.
  set (wp := on_self (prepared env) w).
  assert (faces (self wp) = r :: rest) as Hfs by (by rewrite <- Hfaces).
  assert (facesSaved (self wp) = replicate (length (detected env)) false) as Hsv.
  { unfold wp. cbn [self on_self prepared facesSaved set_facesSaved].
    rewrite Hflags, Hfaces. unfold syncSavedFlags.
    rewrite decide_True by done. done. }
  rewrite Hfs. cbn [length seq for_each]. unfold bind at 1.
  rewrite (fs_annotateFace_refused fs env 0 wp message r Hdir).
  - unfold wp, on_self. cbn [self disk imwrites frame prepared set_facesSaved set_faces
                            set_frameCounter set_frame faces facesSaved focalLength
                            realFaceWidth videoWriter frameSkipCount frameCounter].
    do 2 f_equal. unfold prepared, set_frame, set_facesSaved, set_faces, set_frameCounter.
    cbn. f_equal. rewrite Hflags, Hfaces. unfold syncSavedFlags.
    by rewrite decide_True.
  - by rewrite Hfs.
  - rewrite Hsv, Hfaces. done.
Qed.

(** X18: when the filesystem refuses the directory "faces" (the path exists
    and is not a directory, or cannot be created), the first full cycle that
    finds faces does not complete: [processFrame] ends with the error of
    [create_directory].  The counter has been reset and the detections
    stored, there is one saved flag per detection and none is set, the frame
    holds the capture with the first box only, and nothing has been written:
    no image, no path on disk, no frame in the video. *)
Theorem refused_directory_cuts_cycle fs env w message r rest :
  refused fs "faces" = Some message ->
  empty (captured env) = false ->
  Int.add (frameSkipCount (self w)) 1 ≠ 0 ->
  due (self w) ->
  facesSaved (self w) = [] ->
  detected env = r :: rest ->
  let w' := (Fs.processFrame fs env w).2 in
  (Fs.processFrame fs env w).1 = Throw (filesystem_error message) /\
  frameCounter (self w') = 0 /\
  faces (self w') = detected env /\
  facesSaved (self w') = replicate (length (detected env)) false /\
  frame (self w') = draw (Rectangle r) (captured env) /\
  videoWriter (self w') = videoWriter (self w) /\
  imwrites w' = imwrites w /\
  disk w' = disk w.
Proof.
  intros Hdir Hempty Hnz Hdue Hflags Hfaces.
  rewrite (fs_processFrame_refused fs env w message r rest) by done.
  by split_and!.
Qed.

(** The path "faces" is taken by a regular file. *)
Lemma refused_directory_cuts_cycle_witness :
  let fs := mkFilesystem
              (fun p => if decide (p = "faces") then Some "cannot create directory" else None)
              (fun _ => None) in
  let w' := (Fs.processFrame fs env_two fresh_world).2 in
  (Fs.processFrame fs env_two fresh_world).1
  = Throw (filesystem_error "cannot create directory") /\
  facesSaved (self w') = [false; false] /\
  frame (self w') = Picture 1 [Rectangle face_a] /\
  videoWriter (self w') = [] /\
  imwrites w' = [] /\
  disk w' = ∅.
Proof.
  intros fs w'.
  assert (refused fs "faces" = Some "cannot create directory") as H0 by reflexivity.
  assert (empty (captured env_two) = false) as H1 by reflexivity.
  assert (Int.add (frameSkipCount (self fresh_world)) 1 ≠ 0) as H2
    by (vm_compute; discriminate).
  assert (due (self fresh_world)) as H3 by reflexivity.
  assert (facesSaved (self fresh_world) = []) as H4 by reflexivity.
  assert (detected env_two = face_a :: [face_b]) as H5 by reflexivity.
  destruct (refused_directory_cuts_cycle fs env_two fresh_world _ _ _ H0 H1 H2 H3 H4 H5)
    as (Hthrow & _ & _ & Hflags & Hframe & Hvideo & Hlog & Hdisk).
  split_and!; [exact Hthrow | exact Hflags | exact Hframe | exact Hvideo | exact Hlog
              | exact Hdisk].
Defined.


